(** * Inbucket: delivery parsing, the POP3 listener and the daemon lifecycle

    A shallow embedding of three pieces of the Go sources:
    - package [message]: [ParseDelivery] and the [Metadata]/[Delivery] structs;
    - package [pop3]: the listener ([Start], [serve], [emergencyShutdown],
      [Drain]);
    - package [main]: [ServerTuple.Drain], the signal loop of [main] and
      [timedExit].

    Go values are modelled as follows.  A [time.Duration] is an [int64] count
    of nanoseconds, kept in [Z] with the wrap-around written out.  A function
    returning [(T, error)] returns a [Result T]; a run-time panic is the third
    constructor of [Result].  The shutdown channel is a [chan bool] on which
    nothing is ever sent, so its whole state is whether it has been closed. *)

From Stdlib Require Import ZArith List String Bool Lia.
Import ListNotations.
Local Open Scope string_scope.
Local Open Scope list_scope.
Local Open Scope Z_scope.

(* ================================================================== *)
(** * The fragments of the Go runtime the sources rely on *)
(* ================================================================== *)

Module Go.

Definition error := string.

(** The three ways a Go call can end: a normal return, a returned [error],
    or a run-time panic. *)
Inductive Result (A : Type) : Type :=
| Returned (a : A)
| Failed (err : error)
| Panicked (msg : string).

Arguments Returned {A} a.
Arguments Failed {A} err.
Arguments Panicked {A} msg.

Definition bind {A B : Type} (r : Result A) (k : A -> Result B) : Result B :=
  match r with
  | Returned a => k a
  | Failed e => Failed e
  | Panicked m => Panicked m
  end.

Definition panics {A : Type} (r : Result A) : bool :=
  match r with Panicked _ => true | _ => false end.

(** [int64] arithmetic: results are reduced to the signed 64-bit range. *)
Definition wrap64 (z : Z) : Z := (z + 2 ^ 63) mod 2 ^ 64 - 2 ^ 63.
Definition add64 (a b : Z) : Z := wrap64 (a + b).
Definition mul64 (a b : Z) : Z := wrap64 (a * b).

(** [time.Duration] and the constants of package [time]. *)
Definition Duration := Z.
Definition Nanosecond : Duration := 1.
Definition Microsecond : Duration := 1000 * Nanosecond.
Definition Millisecond : Duration := 1000 * Microsecond.
Definition Second : Duration := 1000 * Millisecond.

(** A [chan bool] that is only ever closed and received from. *)
Record Chan : Type := { closed : bool }.

Definition make_chan : Chan := {| closed := false |}.

(** [close(c)]: closing a closed channel panics. *)
Definition close (c : Chan) : Result Chan :=
  if closed c then Panicked "close of closed channel"
  else Returned {| closed := true |}.

(** A receive on such a channel can proceed exactly when it is closed. *)
Definition recv_ready (c : Chan) : bool := closed c.

(** [s[i]] on a slice: out of range panics. *)
Definition index {A : Type} (s : list A) (i : nat) : Result A :=
  match nth_error s i with
  | Some a => Returned a
  | None => Panicked "index out of range"
  end.

End Go.

(* ================================================================== *)
(** * Package message *)
(* ================================================================== *)

Module Message.
Import Go.

(** [mail.Address]. *)
Record Address : Type := { Name : string; Addr : string }.

(** [time.Time], as an instant on the daemon's clock. *)
Definition Time := Z.

(** What [ParseDelivery] asks of an [*enmime.Envelope]: the two methods it
    calls.  [AddressList] returns a slice and an error; [GetHeader] returns
    the header's value, empty when the header is absent. *)
Record Envelope : Type := {
  AddressList : string -> list Address * option error;
  GetHeader : string -> string
}.

(** [Metadata].  [From] is a pointer, [None] is [nil]. *)
Record Metadata : Type := {
  Mailbox : string;
  ID : string;
  From : option Address;
  To : list Address;
  Date : Time;
  Subject : string;
  Size : Z;
  Seen : bool
}.

Section Parse.

(** The [io.Reader] handed in by the caller, and [enmime.ReadEnvelope], which
    is a library of its own and is taken as given. *)
Variable io_Reader : Type.
Variable ReadEnvelope : io_Reader -> Envelope + error.

(** The reading of [time.Now()] at the call. *)
Variable now : Time.

(** [Delivery]. *)
Record Delivery : Type := { Meta : Metadata; Reader : io_Reader }.

Definition ParseDelivery (reader : io_Reader) (mailbox : string) : Result Delivery :=
  match ReadEnvelope reader with
  | inr err => Failed err
  | inl env =>
      let fromaddr := fst (AddressList env "From") in
      let toaddr := fst (AddressList env "To") in
      bind (index fromaddr 0) (fun from0 =>
      Returned {| Meta := {| Mailbox := mailbox;
                             ID := "";
                             From := Some from0;
                             To := toaddr;
                             Date := now;
                             Subject := GetHeader env "Subject";
                             Size := 0;
                             Seen := false |};
                  Reader := reader |})
  end.

(** The getters of [Delivery] used below. *)
Definition Delivery_Date (d : Delivery) : Time := Date (Meta d).
Definition Delivery_Subject (d : Delivery) : string := Subject (Meta d).

End Parse.

Arguments Meta {io_Reader} d.
Arguments Reader {io_Reader} d.
Arguments Delivery_Date {io_Reader} d.
Arguments Delivery_Subject {io_Reader} d.
Arguments ParseDelivery {io_Reader} ReadEnvelope now reader mailbox.

(** ** Sample messages

    Three messages and what the envelope reader makes of them: a complete
    message, a message without a [From:] header, and a message whose
    headers are so malformed that the envelope reader returns an error. *)
Inductive SampleMessage : Type :=
| CompleteMessage
| MessageWithoutFrom
| UnreadableMessage.

Definition bob : Address := {| Name := "Bob"; Addr := "bob@example.com" |}.
Definition alice : Address := {| Name := ""; Addr := "alice@example.com" |}.

Definition complete_envelope : Envelope :=
  {| AddressList := fun key =>
       if String.eqb key "From" then ([bob], None)
       else if String.eqb key "To" then ([alice], None)
       else ([], Some "mail: header not in message"%string);
     GetHeader := fun key =>
       if String.eqb key "Subject" then "hi"%string
       else if String.eqb key "Date" then "Mon, 02 Jan 2006 15:04:05 -0700"%string
       else ""%string |}.

Definition envelope_without_from : Envelope :=
  {| AddressList := fun key =>
       if String.eqb key "To" then ([alice], None)
       else ([], Some "mail: header not in message"%string);
     GetHeader := fun key =>
       if String.eqb key "Subject" then "hi"%string else ""%string |}.

Definition sample_ReadEnvelope (m : SampleMessage) : Envelope + error :=
  match m with
  | CompleteMessage => inl complete_envelope
  | MessageWithoutFrom => inl envelope_without_from
  | UnreadableMessage =>
      inr "malformed MIME header"%string
  end.

End Message.

(* ================================================================== *)
(** * Package pop3: the listener *)
(* ================================================================== *)

Module Pop3.
Import Go.

(** A [net.Conn]; the listener only passes it on. *)
Definition Conn := Z.

(** The error of a failed [Accept]: whether it is a [net.Error], and what
    its [Temporary()] method answers. *)
Record AcceptError : Type := { is_net_error : bool; temporary : bool }.

Inductive AcceptResult : Type :=
| Accepted (conn : Conn)
| AcceptFailed (err : AcceptError).

(** The state [Start], [serve], [emergencyShutdown] and [Drain] read and
    write: the global shutdown channel, whether the context handed to
    [Start] is cancelled, the counter of the wait-group, the sessions whose
    goroutine has been started and has not exited, and the durations handed
    to [time.Sleep] so far (oldest first). *)
Record Server : Type := {
  globalShutdown : Chan;
  ctx_done : bool;
  wg : Z;
  sessions : list (Z * Conn);
  slept : list Duration
}.

(** [New]: a fresh wait-group, no session. *)
Definition New (shutdownChan : Chan) (ctx_cancelled : bool) : Server :=
  {| globalShutdown := shutdownChan; ctx_done := ctx_cancelled;
     wg := 0; sessions := []; slept := [] |}.

Definition set_globalShutdown (c : Chan) (s : Server) : Server :=
  {| globalShutdown := c; ctx_done := ctx_done s; wg := wg s;
     sessions := sessions s; slept := slept s |}.

Definition set_wg (n : Z) (s : Server) : Server :=
  {| globalShutdown := globalShutdown s; ctx_done := ctx_done s; wg := n;
     sessions := sessions s; slept := slept s |}.

Definition set_sessions (l : list (Z * Conn)) (s : Server) : Server :=
  {| globalShutdown := globalShutdown s; ctx_done := ctx_done s; wg := wg s;
     sessions := l; slept := slept s |}.

(** [time.Sleep(d)]. *)
Definition time_Sleep (d : Duration) (s : Server) : Server :=
  {| globalShutdown := globalShutdown s; ctx_done := ctx_done s; wg := wg s;
     sessions := sessions s; slept := slept s ++ [d] |}.

(** [s.wg.Add(delta)]: a counter that would go negative panics. *)
Definition wg_Add (delta : Z) (s : Server) : Result Server :=
  if wg s + delta <? 0 then Panicked "sync: negative WaitGroup counter"
  else Returned (set_wg (wg s + delta) s).

(** [s.wg.Wait()]: returns once the counter is zero; [None] while the
    caller is still blocked. *)
Definition wg_Wait (s : Server) : option Server :=
  if wg s =? 0 then Some s else None.

(** [go s.startSession(sid, conn)]. *)
Definition go_startSession (sid : Z) (conn : Conn) (s : Server) : Server :=
  set_sessions ((sid, conn) :: sessions s) s.

Definition session_eqb (a b : Z * Conn) : bool :=
  (fst a =? fst b) && (snd a =? snd b).

Fixpoint remove_session (x : Z * Conn) (l : list (Z * Conn)) : list (Z * Conn) :=
  match l with
  | [] => []
  | y :: l' => if session_eqb x y then l' else y :: remove_session x l'
  end.

Definition running (x : Z * Conn) (s : Server) : bool :=
  existsb (session_eqb x) (sessions s).

(** Modelled from the spec: the body of [startSession] is not among the
    sources; of a session the spec says that it "decrements [the listener's
    wait-group] on exit".  So the exit of a running session is
    [s.wg.Done()], that is [s.wg.Add(-1)], and the end of its goroutine. *)
Definition session_exit (x : Z * Conn) (s : Server) : Result Server :=
  bind (wg_Add (-1) s) (fun s' =>
  Returned (set_sessions (remove_session x (sessions s')) s')).

(** [emergencyShutdown]: a select with a receive from the shutdown channel
    and a default that closes it. *)
Definition emergencyShutdown (s : Server) : Result Server :=
  if recv_ready (globalShutdown s) then Returned s
  else bind (close (globalShutdown s)) (fun c =>
       Returned (set_globalShutdown c s)).

(** The first part of [Start], up to the [go s.serve(ctx)]: resolving the
    address and binding the listener may each fail.  After the [go]
    statement [Start] waits for [ctx.Done()] and closes the listener. *)
Inductive StartOutcome : Type :=
| StartReturned (s : Server)
| Listening (s : Server).

Definition Start (resolve_ok listen_ok : bool) (s : Server) : Result StartOutcome :=
  if negb resolve_ok then
    bind (emergencyShutdown s) (fun s' => Returned (StartReturned s'))
  else if negb listen_ok then
    bind (emergencyShutdown s) (fun s' => Returned (StartReturned s'))
  else Returned (Listening s).

(** The update of [tempDelay] on a temporary error. *)
Definition backoff (tempDelay : Duration) : Duration :=
  let tempDelay :=
    if tempDelay =? 0 then 5 * Millisecond else mul64 tempDelay 2 in
  let max := 1 * Second in
  if tempDelay >? max then max else tempDelay.

(** One turn of the loop of [serve], for the result of its [Accept]. *)
Inductive Step : Type :=
| Continue (tempDelay : Duration) (s : Server)
| Return (s : Server).

Definition serve_iter (sid : Z) (r : AcceptResult) (tempDelay : Duration)
           (s : Server) : Result Step :=
  match r with
  | AcceptFailed err =>
      if is_net_error err && temporary err then
        let tempDelay := backoff tempDelay in
        Returned (Continue tempDelay (time_Sleep tempDelay s))
      else if ctx_done s then Returned (Return s)
      else bind (emergencyShutdown s) (fun s' => Returned (Return s'))
  | Accepted conn =>
      bind (wg_Add 1 s) (fun s' =>
      Returned (Continue 0 (go_startSession sid conn s')))
  end.

(** [serve] on the results its successive [Accept] calls get.  When they
    run out the loop is waiting in [Accept]. *)
Inductive ServeOutcome : Type :=
| Accepting (sid : Z) (tempDelay : Duration) (s : Server)
| Finished (s : Server).

Fixpoint serve_loop (accepts : list AcceptResult) (sid : Z)
         (tempDelay : Duration) (s : Server) : Result ServeOutcome :=
  match accepts with
  | [] => Returned (Accepting sid tempDelay s)
  | r :: rest =>
      bind (serve_iter sid r tempDelay s) (fun st =>
      match st with
      | Continue d s' => serve_loop rest (add64 sid 1) d s'
      | Return s' => Returned (Finished s')
      end)
  end.

Definition serve (accepts : list AcceptResult) (s : Server) : Result ServeOutcome :=
  serve_loop accepts 1 0 s.

(** [Drain]: [s.wg.Wait()], then a log line. *)
Definition Drain (s : Server) : option Server := wg_Wait s.

(** What a run of [serve] left behind. *)
Definition outcome_server (o : ServeOutcome) : Server :=
  match o with Accepting _ _ s => s | Finished s => s end.

Definition outcome_delay (o : ServeOutcome) : option Duration :=
  match o with Accepting _ d _ => Some d | Finished _ => None end.

Definition is_temporary (r : AcceptResult) : bool :=
  match r with
  | AcceptFailed err => is_net_error err && temporary err
  | Accepted _ => false
  end.

Definition is_permanent (r : AcceptResult) : bool :=
  match r with
  | AcceptFailed err => negb (is_net_error err && temporary err)
  | Accepted _ => false
  end.

(** The schedule in the spec's words: 5 ms for the first temporary error
    of a run, doubled for each further one, capped at one second. *)
Definition expected_delay (k : nat) : Duration :=
  Z.min (5 * Millisecond * 2 ^ (Z.of_nat k - 1)) Second.

(** [tempDelay] after [k] temporary errors in a row since it was last zero. *)
Definition delay_after (k : nat) : Duration :=
  match k with O => 0 | S _ => expected_delay k end.

(** ** The listener and its sessions as a transition system

    [serve] admits a connection in two statements, [s.wg.Add(1)] and the
    [go] statement; sessions exit on their own; [Drain] may look at the
    wait-group between any two of these. *)
Record Listener : Type := {
  srv : Server;
  admitted : option (Z * Conn)
}.

Inductive Event : Type :=
| ServeAdd (sid : Z) (conn : Conn)
| ServeGo
| SessionExit (sid : Z) (conn : Conn).

Definition step (e : Event) (l : Listener) : option Listener :=
  match e with
  | ServeAdd sid conn =>
      match admitted l, wg_Add 1 (srv l) with
      | None, Returned s' => Some {| srv := s'; admitted := Some (sid, conn) |}
      | _, _ => None
      end
  | ServeGo =>
      match admitted l with
      | Some (sid, conn) =>
          Some {| srv := go_startSession sid conn (srv l); admitted := None |}
      | None => None
      end
  | SessionExit sid conn =>
      if running (sid, conn) (srv l) then
        match session_exit (sid, conn) (srv l) with
        | Returned s' => Some {| srv := s'; admitted := admitted l |}
        | _ => None
        end
      else None
  end.

Fixpoint run (events : list Event) (l : Listener) : option Listener :=
  match events with
  | [] => Some l
  | e :: rest =>
      match step e l with
      | Some l' => run rest l'
      | None => None
      end
  end.

Definition listening (shutdownChan : Chan) (ctx_cancelled : bool) : Listener :=
  {| srv := New shutdownChan ctx_cancelled; admitted := None |}.

Definition in_flight (l : Listener) : Z :=
  Z.of_nat (List.length (sessions (srv l)))
  + match admitted l with Some _ => 1 | None => 0 end.

(** Sample [Accept] errors. *)
Definition temporary_error : AcceptResult :=
  AcceptFailed {| is_net_error := true; temporary := true |}.

Definition permanent_error : AcceptResult :=
  AcceptFailed {| is_net_error := true; temporary := false |}.

End Pop3.

(* ================================================================== *)
(** * Package main: the daemon *)
(* ================================================================== *)

Module Main.
Import Go.

(** The [os.Signal] values; [SIGHUP] stands for the ones [main] has no case
    for. *)
Inductive Signal : Type := SIGINT | SIGTERM | SIGHUP.

(** [signal.Notify(sigChan, syscall.SIGTERM, syscall.SIGINT)]. *)
Definition notified (sig : Signal) : bool :=
  match sig with
  | SIGTERM | SIGINT => true
  | SIGHUP => false
  end.

Section Daemon.

(** The values of interface type [server.IServer]. *)
Context {IServer : Type}.

(** What [main] and [timedExit] do to the world outside their own
    variables, in the order they do it. *)
Inductive Effect : Type :=
| LogSignal (sig : Signal)
| RootCancel
| GoTimedExit (pidfile : string)
| CallDrain (server : IServer)
| JoinScanner
| OsRemove (path : string)
| CloseLog
| Sleep (d : Duration)
| LogForcedExit
| OsExit (code : Z).

(** The variables of [main] the signal loop works on: the shutdown channel,
    the signal channel (buffered, capacity 1), whether [rootCtx] has been
    cancelled; and the effects so far, oldest first. *)
Record State : Type := {
  shutdownChan : Chan;
  sigChan : list Signal;
  rootCancelled : bool;
  trace : list Effect
}.

(** The state on entry to the signal loop. *)
Definition initial : State :=
  {| shutdownChan := make_chan; sigChan := []; rootCancelled := false;
     trace := [] |}.

Definition emit (e : Effect) (st : State) : State :=
  {| shutdownChan := shutdownChan st; sigChan := sigChan st;
     rootCancelled := rootCancelled st; trace := trace st ++ [e] |}.

Definition set_shutdownChan (c : Chan) (st : State) : State :=
  {| shutdownChan := c; sigChan := sigChan st;
     rootCancelled := rootCancelled st; trace := trace st |}.

Definition set_sigChan (q : list Signal) (st : State) : State :=
  {| shutdownChan := shutdownChan st; sigChan := q;
     rootCancelled := rootCancelled st; trace := trace st |}.

(** [rootCancel()]. *)
Definition rootCancel (st : State) : State :=
  emit RootCancel
    {| shutdownChan := shutdownChan st; sigChan := sigChan st;
       rootCancelled := true; trace := trace st |}.

(** ** [ServerTuple] *)

(** [None] is the [nil] interface value. *)
Record ServerTuple : Type := { v4 : option IServer; v6 : option IServer }.

Definition is_nil (i : option IServer) : bool :=
  match i with None => true | Some _ => false end.

(** A call of [Drain] through an interface value panics on [nil]. *)
Definition IServer_Drain (i : option IServer) (st : State) : Result State :=
  match i with
  | None => Panicked "invalid memory address or nil pointer dereference"
  | Some server => Returned (emit (CallDrain server) st)
  end.

Definition ServerTuple_Drain (t : ServerTuple) (st : State) : Result State :=
  bind (if negb (is_nil (v4 t)) then IServer_Drain (v4 t) st else Returned st)
       (fun st' =>
  if negb (is_nil (v6 t)) then IServer_Drain (v6 t) st' else Returned st').

(** ** [removePIDFile] and [timedExit] *)

(** A failure of [os.Remove] is logged and nothing else. *)
Definition removePIDFile (pidfile : string) : list Effect :=
  if negb (String.eqb pidfile "") then [OsRemove pidfile] else [].

(** The goroutine started by [go timedExit(pidfile)]. *)
Definition timedExit (pidfile : string) : list Effect :=
  [Sleep (15 * Second)] ++ removePIDFile pidfile ++ [LogForcedExit; OsExit 0].

Definition emit_all (es : list Effect) (st : State) : State :=
  fold_left (fun s e => emit e s) es st.

(** ** The signal loop *)

Inductive SelectCase : Type := CaseSignal | CaseShutdown.

(** Whether the channel operation of a case of the [select] can proceed. *)
Definition case_ready (c : SelectCase) (st : State) : bool :=
  match c with
  | CaseSignal => match sigChan st with [] => false | _ :: _ => true end
  | CaseShutdown => recv_ready (shutdownChan st)
  end.

Inductive LoopStep : Type :=
| NextTurn (st : State)
| BreakLoop (st : State).

(** One turn of the loop, for the case its [select] takes; [None] when that
    case cannot proceed. *)
Definition signalLoop_turn (c : SelectCase) (st : State) : option (Result LoopStep) :=
  match c with
  | CaseSignal =>
      match sigChan st with
      | [] => None
      | sig :: queued =>
          let st := set_sigChan queued st in
          Some match sig with
               | SIGINT =>
                   let st := emit (LogSignal SIGINT) st in
                   bind (close (shutdownChan st)) (fun c' =>
                   Returned (NextTurn (set_shutdownChan c' st)))
               | SIGTERM =>
                   let st := emit (LogSignal SIGTERM) st in
                   bind (close (shutdownChan st)) (fun c' =>
                   Returned (NextTurn (set_shutdownChan c' st)))
               | SIGHUP => Returned (NextTurn st)
               end
      end
  | CaseShutdown =>
      if recv_ready (shutdownChan st)
      then Some (Returned (BreakLoop (rootCancel st)))
      else None
  end.

(** What happens around [main] while it is in the loop: the operating
    system raises a signal, which package [signal] sends on [sigChan]
    without blocking when the signal was asked for; a listener runs its
    [emergencyShutdown] on the shared channel; the [select] of [main] takes
    one of its cases. *)
Inductive Event : Type :=
| Raise (sig : Signal)
| ListenerEmergency
| Select (c : SelectCase).

Definition deliver (sig : Signal) (st : State) : State :=
  if notified sig && (Z.of_nat (List.length (sigChan st)) <? 1)
  then set_sigChan (sigChan st ++ [sig]) st
  else st.

Definition listener_emergency (st : State) : Result State :=
  bind (Pop3.emergencyShutdown (Pop3.New (shutdownChan st) (rootCancelled st)))
       (fun s => Returned (set_shutdownChan (Pop3.globalShutdown s) st)).

Inductive LoopOutcome : Type :=
| InLoop (st : State)
| LeftLoop (st : State)
| Crashed (msg : string)
| NotReady.

(** The loop under a schedule of events.  Events after the [break] are not
    looked at. *)
Fixpoint signalLoop (events : list Event) (st : State) : LoopOutcome :=
  match events with
  | [] => InLoop st
  | Raise sig :: rest => signalLoop rest (deliver sig st)
  | ListenerEmergency :: rest =>
      match listener_emergency st with
      | Returned st' => signalLoop rest st'
      | Failed msg => Crashed msg
      | Panicked msg => Crashed msg
      end
  | Select c :: rest =>
      match signalLoop_turn c st with
      | None => NotReady
      | Some (Returned (NextTurn st')) => signalLoop rest st'
      | Some (Returned (BreakLoop st')) => LeftLoop st'
      | Some (Failed msg) => Crashed msg
      | Some (Panicked msg) => Crashed msg
      end
  end.

(** ** After the loop *)

Definition shutdown_sequence (pidfile : string) (smtp pop3 : ServerTuple)
           (st : State) : Result State :=
  let st := emit (GoTimedExit pidfile) st in
  bind (ServerTuple_Drain smtp st) (fun st =>
  bind (ServerTuple_Drain pop3 st) (fun st =>
  let st := emit JoinScanner st in
  let st := emit_all (removePIDFile pidfile) st in
  Returned (emit CloseLog st))).

(** [main] from the signal loop on. *)
Inductive MainOutcome : Type :=
| StillLooping (st : State)
| MainReturned (st : State)
| MainPanicked (msg : string)
| BadSchedule.

Definition main_from_loop (events : list Event) (pidfile : string)
           (smtp pop3 : ServerTuple) : MainOutcome :=
  match signalLoop events initial with
  | InLoop st => StillLooping st
  | LeftLoop st =>
      match shutdown_sequence pidfile smtp pop3 st with
      | Returned st' => MainReturned st'
      | Failed msg => MainPanicked msg
      | Panicked msg => MainPanicked msg
      end
  | Crashed msg => MainPanicked msg
  | NotReady => BadSchedule
  end.

(** The calls of [Drain] a tuple stands for. *)
Definition drain_calls (t : ServerTuple) : list Effect :=
  match v4 t, v6 t with
  | Some a, Some b => [CallDrain a; CallDrain b]
  | Some a, None => [CallDrain a]
  | None, Some b => [CallDrain b]
  | None, None => []
  end.

(** ** Time

    A goroutine's effects on a clock: [time.Sleep d] lasts [d], a call of
    [Drain] and the join of the retention scanner last as long as the
    servers and the scanner make them ([None]: for ever), everything else
    takes no time. *)
Variable drain_time : IServer -> option Duration.
Variable join_time : option Duration.

Definition duration_of (e : Effect) : option Duration :=
  match e with
  | Sleep d => Some d
  | CallDrain server => drain_time server
  | JoinScanner => join_time
  | _ => Some 0
  end.

Inductive End : Type :=
| ReturnsAt (t : Z)
| ExitsAt (t : Z) (code : Z)
| NeverEnds.

(** When a goroutine that starts at [t] is through, and how. *)
Fixpoint goroutine_end (g : list Effect) (t : Z) : End :=
  match g with
  | [] => ReturnsAt t
  | OsExit code :: _ => ExitsAt t code
  | e :: rest =>
      match duration_of e with
      | Some d => goroutine_end rest (t + d)
      | None => NeverEnds
      end
  end.

(** When the process ends: [main] runs its effects from [t]; a
    [go timedExit] arms the exit its goroutine will make; the process ends
    when [main] returns or at an armed exit, whichever is first. *)
Fixpoint process_end (acts : list Effect) (t : Z) (armed : option (Z * Z)) : End :=
  match acts with
  | [] => ReturnsAt t
  | GoTimedExit pidfile :: rest =>
      match goroutine_end (timedExit pidfile) t with
      | ExitsAt tw code => process_end rest t (Some (tw, code))
      | _ => process_end rest t armed
      end
  | OsExit code :: _ => ExitsAt t code
  | e :: rest =>
      match duration_of e, armed with
      | Some d, Some (tw, code) =>
          if tw <? t + d then ExitsAt tw code else process_end rest (t + d) armed
      | Some d, None => process_end rest (t + d) None
      | None, Some (tw, code) => ExitsAt tw code
      | None, None => NeverEnds
      end
  end.

(** The effects between two states of [main]. *)
Definition effects_since (before after : State) : list Effect :=
  skipn (List.length (trace before)) (trace after).

(** The drain of the listeners is still going on after [deadline]. *)
Definition exceeds (e : End) (deadline : Z) : Prop :=
  match e with
  | ReturnsAt t => deadline < t
  | ExitsAt _ _ => False
  | NeverEnds => True
  end.

End Daemon.

Arguments Effect IServer : clear implicits.
Arguments State IServer : clear implicits.
Arguments ServerTuple IServer : clear implicits.
Arguments LoopStep IServer : clear implicits.
Arguments LoopOutcome IServer : clear implicits.
Arguments MainOutcome IServer : clear implicits.

(** ** A sample daemon

    Servers are named by module and network.  SMTP listens on IPv4 only,
    POP3 on both; every listener drains in two seconds, except the POP3
    listener on IPv6, which has a session that never ends. *)
Definition sample_smtp : ServerTuple string :=
  {| v4 := Some "smtp/tcp4"; v6 := None |}.

Definition sample_pop3 : ServerTuple string :=
  {| v4 := Some "pop3/tcp4"; v6 := Some "pop3/tcp6" |}.

Definition sample_drain_time (server : string) : option Duration :=
  if String.eqb server "pop3/tcp6" then None else Some (2 * Second).

Definition sample_join_time : option Duration := Some 0.

End Main.

(* ================================================================== *)
(** * Package message: the getters of [Delivery] *)
(* ================================================================== *)

Module Getters.
Import Go Message.

Section Getters.

Variable io_Reader : Type.

(** The methods by which a [Delivery] is a [storage.Message], besides
    [Date] and [Subject]. *)
Definition Delivery_Mailbox (d : Delivery io_Reader) : string := Mailbox (Meta d).
Definition Delivery_ID (d : Delivery io_Reader) : string := ID (Meta d).
Definition Delivery_From (d : Delivery io_Reader) : option Address := From (Meta d).
Definition Delivery_To (d : Delivery io_Reader) : list Address := To (Meta d).
Definition Delivery_Size (d : Delivery io_Reader) : Z := Size (Meta d).
Definition Delivery_Seen (d : Delivery io_Reader) : bool := Seen (Meta d).

(** [Source]: [ioutil.NopCloser(d.Reader)], whose [Close] does nothing, and
    a [nil] error. *)
Definition Delivery_Source (d : Delivery io_Reader) : Result io_Reader :=
  Returned (Reader d).

End Getters.

Arguments Delivery_Mailbox {io_Reader} d.
Arguments Delivery_ID {io_Reader} d.
Arguments Delivery_From {io_Reader} d.
Arguments Delivery_To {io_Reader} d.
Arguments Delivery_Size {io_Reader} d.
Arguments Delivery_Seen {io_Reader} d.
Arguments Delivery_Source {io_Reader} d.

(** What [ParseDelivery] looks at in the result of [ReadEnvelope]: the
    error, or else the two address slices and the [Subject] header. *)
Definition same_for_ParseDelivery (r1 r2 : Envelope + error) : Prop :=
  match r1, r2 with
  | inr e1, inr e2 => e1 = e2
  | inl env1, inl env2 =>
      fst (AddressList env1 "From") = fst (AddressList env2 "From")
      /\ fst (AddressList env1 "To") = fst (AddressList env2 "To")
      /\ GetHeader env1 "Subject" = GetHeader env2 "Subject"
  | _, _ => False
  end.

(** An envelope that answers [value] for the header [key] and is otherwise
    [env]; and an envelope reader whose envelopes are changed in that way. *)
Definition set_header (key value : string) (env : Envelope) : Envelope :=
  {| AddressList := AddressList env;
     GetHeader := fun k => if String.eqb k key then value else GetHeader env k |}.

Definition with_header {io_Reader : Type} (key value : string)
           (ReadEnvelope : io_Reader -> Envelope + error)
  : io_Reader -> Envelope + error :=
  fun reader =>
    match ReadEnvelope reader with
    | inl env => inl (set_header key value env)
    | inr err => inr err
    end.

(** A second reading of the complete sample message, by an envelope reader
    that reports other dates, other headers and errors on the address
    lists. *)
Definition other_complete_envelope : Envelope :=
  {| AddressList := fun key =>
       if String.eqb key "From" then ([bob], Some "mail: trailing garbage")
       else if String.eqb key "To" then ([alice], None)
       else ([bob; alice], None);
     GetHeader := fun key =>
       if String.eqb key "Subject" then "hi"
       else if String.eqb key "Date" then "Tue, 03 Jan 2006 00:00:00 +0000"
       else "x" |}.

End Getters.

(* ================================================================== *)
(** * Package pop3: sequences of [Accept] results *)
(* ================================================================== *)

Module Accepts.
Import Go Pop3.

Definition is_accepted (r : AcceptResult) : bool :=
  match r with Accepted _ => true | AcceptFailed _ => false end.

(** The connections among the results of successive [Accept] calls, each
    with the number of its call, the first call having number [sid]. *)
Fixpoint accepted_sessions (sid : Z) (accepts : list AcceptResult) : list (Z * Conn) :=
  match accepts with
  | [] => []
  | Accepted conn :: rest => (sid, conn) :: accepted_sessions (sid + 1) rest
  | AcceptFailed _ :: rest => accepted_sessions (sid + 1) rest
  end.

(** What [serve] makes of its state when a permanent error ends it. *)
Definition after_permanent_error (s : Server) : Server :=
  if ctx_done s then s else set_globalShutdown {| closed := true |} s.

End Accepts.

(* ================================================================== *)
(** * Package main: kinds of events and effects *)
(* ================================================================== *)

Module Schedules.
Import Go Main.




(** An effect of [main] other than starting the watchdog or exiting. *)
Definition plain {IServer : Type} (e : Effect IServer) : bool :=
  match e with
  | GoTimedExit _ | OsExit _ | Sleep _ => false
  | _ => true
  end.

(** The signal channel respects its capacity and what was asked of
    [signal.Notify]. *)
Definition queue_ok {IServer : Type} (st : State IServer) : Prop :=
  (List.length (sigChan st) <= 1)%nat
  /\ Forall (fun sig => notified sig = true) (sigChan st).

(** [rootCancel] has not been called. *)
Definition not_cancelled {IServer : Type} (st : State IServer) : Prop :=
  rootCancelled st = false /\ ~ In RootCancel (trace st).

End Schedules.

(* ================================================================== *)
(** * Package main: [openLog] *)
(* ================================================================== *)

Module Logging.
Import Go.

(** The levels of zerolog that [openLog] sets. *)
Inductive Level : Type := DebugLevel | InfoLevel | WarnLevel | ErrorLevel.

(** Where the log goes: [os.Stderr], [os.Stdout], or a [bufio.Writer] on
    the log file. *)
Inductive Writer : Type :=
| Stderr
| Stdout
| Buffered (logfile : string).

(** [log.Logger]: [log.Output(w)] writes JSON, [log.Output] of a
    [zerolog.ConsoleWriter] writes text, in colour unless [NoColor]. *)
Inductive Logger : Type :=
| JSONOutput (w : Writer)
| ConsoleOutput (w : Writer) (NoColor : bool).

(** The function [openLog] returns for closing the log. *)
Inductive CloseFunc : Type :=
| CloseNothing
| FlushAndClose (logfile : string).

(** The two errors of [openLog]: its own, about the level, and the one of
    [os.OpenFile]. *)
Inductive OpenLogError : Type :=
| BadLevel (level : string)
| OpenFileError (err : error).

(** The global state [openLog] writes: the global level of zerolog, the
    global logger, and the files opened (and, with [O_CREATE], created). *)
Record LogState : Type := {
  globalLevel : Level;
  logger : Logger;
  opened : list string
}.

Definition SetGlobalLevel (l : Level) (st : LogState) : LogState :=
  {| globalLevel := l; logger := logger st; opened := opened st |}.

Definition set_Logger (lg : Logger) (st : LogState) : LogState :=
  {| globalLevel := globalLevel st; logger := lg; opened := opened st |}.

Definition add_opened (logfile : string) (st : LogState) : LogState :=
  {| globalLevel := globalLevel st; logger := logger st;
     opened := logfile :: opened st |}.

(** The first [switch] of [openLog]. *)
Definition level_of (level : string) : option Level :=
  if String.eqb level "debug" then Some DebugLevel
  else if String.eqb level "info" then Some InfoLevel
  else if String.eqb level "warn" then Some WarnLevel
  else if String.eqb level "error" then Some ErrorLevel
  else None.

Section OpenLog.

(** [runtime.GOOS], and [os.OpenFile] on a path: [None] when it succeeds. *)
Variable GOOS : string.
Variable OpenFile : string -> option error.

Definition openLog (level logfile : string) (json setColor : bool)
           (st : LogState) : LogState * (CloseFunc + OpenLogError) :=
  match level_of level with
  | None => (st, inr (BadLevel level))
  | Some l =>
      let st := SetGlobalLevel l st in
      let close := CloseNothing in
      let color := setColor && negb (String.eqb GOOS "windows") in
      let chosen : LogState * (Writer * bool * CloseFunc + error) :=
        if String.eqb logfile "stderr" then (st, inl (Stderr, color, close))
        else if String.eqb logfile "stdout" then (st, inl (Stdout, color, close))
        else match OpenFile logfile with
             | Some err => (st, inr err)
             | None => (add_opened logfile st,
                        inl (Buffered logfile, false, FlushAndClose logfile))
             end in
      match chosen with
      | (st, inr err) => (st, inr (OpenFileError err))
      | (st, inl (w, color, close)) =>
          if json then (set_Logger (JSONOutput w) st, inl close)
          else (set_Logger (ConsoleOutput w (negb color)) st, inl close)
      end
  end.

End OpenLog.

Definition is_std (logfile : string) : bool :=
  String.eqb logfile "stderr" || String.eqb logfile "stdout".

Definition writer_of (logfile : string) : Writer :=
  if String.eqb logfile "stderr" then Stderr
  else if String.eqb logfile "stdout" then Stdout
  else Buffered logfile.

Definition logger_writer (lg : Logger) : Writer :=
  match lg with JSONOutput w => w | ConsoleOutput w _ => w end.

Definition coloured (lg : Logger) : bool :=
  match lg with JSONOutput _ => false | ConsoleOutput _ NoColor => negb NoColor end.

(** The state of the loggers when [main] starts: zerolog's defaults. *)
Definition default_log : LogState :=
  {| globalLevel := DebugLevel; logger := JSONOutput Stderr; opened := [] |}.

(** A file system on which only paths under [/var/log/] can be opened. *)
Definition sample_OpenFile (path : string) : option error :=
  if String.prefix "/var/log/" path then None
  else Some "permission denied".

End Logging.

(* ================================================================== *)
(** * Package main: [main] up to the signal loop *)
(* ================================================================== *)

Module Startup.
Import Go Main Logging.

(** The command line flags. *)
Record Flags : Type := {
  help : bool;
  pidfile : string;
  logfile : string;
  logjson : bool;
  netdebug : bool
}.

(** The fields of [config.POP3] and of [config.SMTP] that [main] reads. *)
Record NetConfig : Type := {
  Enabled : bool;
  Addr : string;
  Addrv6 : string;
  Debug : bool
}.

(** The fields of the configuration that [main] reads. *)
Record Config : Type := {
  LogLevel : string;
  POP3 : NetConfig;
  SMTP : NetConfig;
  Web_Enabled : bool
}.

Definition set_Debug (c : NetConfig) : NetConfig :=
  {| Enabled := Enabled c; Addr := Addr c; Addrv6 := Addrv6 c; Debug := true |}.

(** [conf.POP3.Debug = true; conf.SMTP.Debug = true]. *)
Definition set_netdebug (conf : Config) : Config :=
  {| LogLevel := LogLevel conf; POP3 := set_Debug (POP3 conf);
     SMTP := set_Debug (SMTP conf); Web_Enabled := Web_Enabled conf |}.

(** The servers [main] makes: [pop3.New(conf.POP3, address, addressType,
    ...)] and [smtp.NewServer(conf.SMTP, network, ...)]. *)
Inductive Server : Type :=
| POP3Server (config : NetConfig) (address addressType : string)
| SMTPServer (config : NetConfig) (network : string).

(** What [main] does before its loop, in order.  [Shutdown] carries the
    effects it shares with the shutdown sequence. *)
Inductive Action : Type :=
| PrintUsage
| PrintConfigError (err : error)
| PrintLogError (err : OpenLogError)
| SignalNotify
| LogStarting
| OsCreate (path : string)
| WritePid (path : string)
| ClosePidfile (path : string)
| LogFatal (what : string)
| Shutdown (e : Effect Server)
| StartScanner
| GoWebStart
| GoStart (server : Server).

(** How [main] stands when it has come to its loop, or has ended before:
    it has returned, the process has exited, or it enters the loop with
    the function that closes the log and the two tuples. *)
Inductive Outcome : Type :=
| Returns (actions : list Action)
| Exits (code : Z) (actions : list Action)
| EntersLoop (actions : list Action) (closeLog : CloseFunc)
             (smtp pop3 : ServerTuple Server).

(** The world [main] runs in: the operating system, what
    [config.Process] and [storage.FromConfig] return, and whether
    [os.Create] of the pidfile and the [Close] of it succeed. *)
Record World : Type := {
  GOOS : string;
  OpenFile : string -> option error;
  config_Process : Config + error;
  os_Create : string -> option error;
  pidf_Close : option error;
  storage_FromConfig : option error
}.

(** The block that writes the pidfile; the flag is [false] when a [Fatal]
    log line has ended the process. *)
Definition write_pidfile (w : World) (path : string) : list Action * bool :=
  if negb (String.eqb path "") then
    match os_Create w path with
    | Some _ => ([OsCreate path; LogFatal "Failed to create pidfile"], false)
    | None =>
        match pidf_Close w with
        | Some _ =>
            ([OsCreate path; WritePid path; ClosePidfile path;
              LogFatal "Failed to close pidfile"], false)
        | None => ([OsCreate path; WritePid path; ClosePidfile path], true)
        end
    end
  else ([], true).

(** The block that makes and starts the POP3 servers. *)
Definition start_pop3 (conf : Config) : list Action * ServerTuple Server :=
  if Enabled (POP3 conf) then
    let r4 :=
      if negb (String.eqb (Addr (POP3 conf)) "") then
        let server := POP3Server (POP3 conf) (Addr (POP3 conf)) "tcp4" in
        ([GoStart server], Some server)
      else ([], None) in
    let r6 :=
      if negb (String.eqb (Addrv6 (POP3 conf)) "") then
        let server := POP3Server (POP3 conf) (Addrv6 (POP3 conf)) "tcp6" in
        ([GoStart server], Some server)
      else ([], None) in
    (fst r4 ++ fst r6, {| v4 := snd r4; v6 := snd r6 |})
  else ([], {| v4 := None; v6 := None |}).

(** The block that makes and starts the SMTP servers. *)
Definition start_smtp (conf : Config) : list Action * ServerTuple Server :=
  if Enabled (SMTP conf) then
    let r4 :=
      if negb (String.eqb (Addr (SMTP conf)) "") then
        let server := SMTPServer (SMTP conf) "tcp4" in
        ([GoStart server], Some server)
      else ([], None) in
    let r6 :=
      if negb (String.eqb (Addrv6 (SMTP conf)) "") then
        let server := SMTPServer (SMTP conf) "tcp6" in
        ([GoStart server], Some server)
      else ([], None) in
    (fst r4 ++ fst r6, {| v4 := snd r4; v6 := snd r6 |})
  else ([], {| v4 := None; v6 := None |}).

(** [main] from its first line to the signal loop.  A [Fatal] log line
    ends the process with status 1. *)
Definition startup (f : Flags) (w : World) (log : LogState) : LogState * Outcome :=
  if help f then (log, Returns [PrintUsage])
  else
    match config_Process w with
    | inr err => (log, Exits 1 [PrintConfigError err])
    | inl conf =>
        let conf := if netdebug f then set_netdebug conf else conf in
        match openLog (GOOS w) (OpenFile w) (LogLevel conf) (logfile f)
                      (logjson f) false log with
        | (log, inr err) => (log, Exits 1 [PrintLogError err])
        | (log, inl closeLog) =>
            let acts := [SignalNotify; LogStarting] in
            let (pid_acts, ok) := write_pidfile w (pidfile f) in
            let acts := acts ++ pid_acts in
            if negb ok then (log, Exits 1 acts)
            else
              match storage_FromConfig w with
              | Some _ =>
                  (log, Exits 1 (acts ++ map Shutdown (removePIDFile (pidfile f))
                                      ++ [LogFatal "Fatal storage error"]))
              | None =>
                  let acts := acts ++ [StartScanner] in
                  let acts :=
                    if Web_Enabled conf then acts ++ [GoWebStart] else acts in
                  let (pop3_acts, pop3ServerTuple) := start_pop3 conf in
                  let (smtp_acts, smtpServerTuple) := start_smtp conf in
                  (log, EntersLoop (acts ++ pop3_acts ++ smtp_acts) closeLog
                                   smtpServerTuple pop3ServerTuple)
              end
        end
    end.

(** The servers started, in order. *)
Fixpoint started (acts : list Action) : list Server :=
  match acts with
  | [] => []
  | GoStart server :: rest => server :: started rest
  | _ :: rest => started rest
  end.

(** The servers of a tuple, [v4] first. *)
Definition members (t : ServerTuple Server) : list Server :=
  match v4 t with Some a => [a] | None => [] end
  ++ match v6 t with Some b => [b] | None => [] end.

Definition server_config (server : Server) : NetConfig :=
  match server with
  | POP3Server c _ _ => c
  | SMTPServer c _ => c
  end.

(** The servers on which [Drain] was called, in order. *)
Fixpoint drained (tr : list (Effect Server)) : list Server :=
  match tr with
  | [] => []
  | CallDrain server :: rest => server :: drained rest
  | _ :: rest => drained rest
  end.

(** Whether an action starts a goroutine or the retention scanner. *)
Definition starts_something (a : Action) : bool :=
  match a with
  | StartScanner | GoWebStart | GoStart _ => true
  | _ => false
  end.

(** A sample run: POP3 on both networks, SMTP on IPv4 only, no web. *)
Definition sample_config : Config :=
  {| LogLevel := "info";
     POP3 := {| Enabled := true; Addr := "0.0.0.0:1100"; Addrv6 := "[::]:1100";
                Debug := false |};
     SMTP := {| Enabled := true; Addr := "0.0.0.0:2500"; Addrv6 := "";
                Debug := false |};
     Web_Enabled := false |}.

Definition sample_flags : Flags :=
  {| help := false; pidfile := "/run/inbucket.pid"; logfile := "stderr";
     logjson := false; netdebug := true |}.

Definition sample_world : World :=
  {| GOOS := "linux"; OpenFile := sample_OpenFile;
     config_Process := inl sample_config;
     os_Create := fun _ => None; pidf_Close := None;
     storage_FromConfig := None |}.

Definition failing_storage_world : World :=
  {| GOOS := "linux"; OpenFile := sample_OpenFile;
     config_Process := inl sample_config;
     os_Create := fun _ => None; pidf_Close := None;
     storage_FromConfig := Some "unknown storage type" |}.

End Startup.

(* ================================================================== *)
(** * The closers of the shutdown channel, statement by statement *)
(* ================================================================== *)

Module Closers.
Import Go.

(** Where a goroutine stands in [emergencyShutdown]: at the [select], in
    its [default] branch before the [close], or through. *)
Inductive Position : Type := AtSelect | AtClose | Through.

(** The shutdown channel and the listeners that have called
    [emergencyShutdown], by number. *)
Record Shared : Type := { channel : Chan; positions : list Position }.

Fixpoint update (l : list Position) (i : nat) (p : Position) : list Position :=
  match l, i with
  | [], _ => []
  | _ :: rest, O => p :: rest
  | q :: rest, S i' => q :: update rest i' p
  end.

Definition set_position (i : nat) (p : Position) (s : Shared) : Shared :=
  {| channel := channel s; positions := update (positions s) i p |}.

(** The next statement of listener [i]: the [select], which takes the
    receive when the channel is closed and the [default] otherwise, or the
    [close] of the [default] branch.  [None]: listener [i] has nothing left
    to run. *)
Definition advance (i : nat) (s : Shared) : option (Result Shared) :=
  match nth_error (positions s) i with
  | Some AtSelect =>
      if recv_ready (channel s)
      then Some (Returned (set_position i Through s))
      else Some (Returned (set_position i AtClose s))
  | Some AtClose =>
      Some (bind (close (channel s)) (fun c =>
            Returned {| channel := c;
                        positions := update (positions s) i Through |}))
  | _ => None
  end.

(** The [close(shutdownChan)] of the signal loop of [main]. *)
Definition main_close (s : Shared) : Result Shared :=
  bind (close (channel s)) (fun c =>
  Returned {| channel := c; positions := positions s |}).

(** Whose statement runs next. *)
Inductive Turn : Type :=
| OfListener (i : nat)
| OfMain.

Fixpoint interleave (turns : list Turn) (s : Shared) : option (Result Shared) :=
  match turns with
  | [] => Some (Returned s)
  | t :: rest =>
      match (match t with
             | OfListener i => advance i s
             | OfMain => Some (main_close s)
             end) with
      | Some (Returned s') => interleave rest s'
      | other => other
      end
  end.

(** Two POP3 listeners, both about to run [emergencyShutdown] on an open
    channel. *)
Definition two_listeners : Shared :=
  {| channel := make_chan; positions := [AtSelect; AtSelect] |}.

End Closers.

(* ================================================================== *)
(** * Properties of the runtime fragments *)
(* ================================================================== *)

Module GoFacts.
Import Go.

Lemma wrap64_small (z : Z) : - 2 ^ 63 <= z < 2 ^ 63 -> wrap64 z = z.
Proof.
  intros H. unfold wrap64.
  rewrite Z.mod_small by lia. lia.
Qed.

Lemma Millisecond_value : Millisecond = 1000000.
Proof. reflexivity. Qed.

Lemma Second_value : Second = 1000000000.
Proof. reflexivity. Qed.

Lemma close_open (c : Chan) :
  closed c = false -> close c = Returned {| closed := true |}.
Proof. intros H. unfold close. now rewrite H. Qed.

Lemma close_closed (c : Chan) :
  closed c = true -> close c = Panicked "close of closed channel".
Proof. intros H. unfold close. now rewrite H. Qed.

End GoFacts.

(* ================================================================== *)
(** * Properties of package message *)
(* ================================================================== *)

Module MessageFacts.
Import Go Message.

(** ** Properties of [ParseDelivery] *)

Section ParseFacts.

Variable io_Reader : Type.
Variable ReadEnvelope : io_Reader -> Envelope + error.
Variable now : Time.

Lemma ParseDelivery_read_error (reader : io_Reader) (mailbox : string) (err : error) :
  ReadEnvelope reader = inr err ->
  ParseDelivery ReadEnvelope now reader mailbox = Failed err.
Proof. intros H. unfold ParseDelivery. now rewrite H. Qed.

Lemma ParseDelivery_with_sender (reader : io_Reader) (mailbox : string)
      (env : Envelope) (a : Address) (rest : list Address) :
  ReadEnvelope reader = inl env ->
  fst (AddressList env "From") = a :: rest ->
  ParseDelivery ReadEnvelope now reader mailbox =
  Returned {| Meta := {| Mailbox := mailbox; ID := ""; From := Some a;
                         To := fst (AddressList env "To"); Date := now;
                         Subject := GetHeader env "Subject";
                         Size := 0; Seen := false |};
              Reader := reader |}.
Proof.
  intros Henv Hfrom. unfold ParseDelivery.
  rewrite Henv. cbv zeta. rewrite Hfrom. reflexivity.
Qed.

Lemma ParseDelivery_without_sender (reader : io_Reader) (mailbox : string)
      (env : Envelope) :
  ReadEnvelope reader = inl env ->
  fst (AddressList env "From") = [] ->
  ParseDelivery ReadEnvelope now reader mailbox = Panicked "index out of range".
Proof.
  intros Henv Hfrom. unfold ParseDelivery.
  rewrite Henv. cbv zeta. rewrite Hfrom. reflexivity.
Qed.

(** Every way [ParseDelivery] can return a [Delivery]. *)
Lemma ParseDelivery_returned_inv (reader : io_Reader) (mailbox : string)
      (d : Delivery io_Reader) :
  ParseDelivery ReadEnvelope now reader mailbox = Returned d ->
  exists env a rest,
    ReadEnvelope reader = inl env /\
    fst (AddressList env "From") = a :: rest /\
    d = {| Meta := {| Mailbox := mailbox; ID := ""; From := Some a;
                      To := fst (AddressList env "To"); Date := now;
                      Subject := GetHeader env "Subject";
                      Size := 0; Seen := false |};
           Reader := reader |}.
Proof.
  unfold ParseDelivery. intros H.
  destruct (ReadEnvelope reader) as [env | err]; [ | discriminate ].
  cbv zeta in H.
  destruct (fst (AddressList env "From")) as [ | a rest ] eqn:Hfrom;
    [ discriminate | ].
  cbn in H. injection H as <-.
  exists env, a, rest. repeat split; assumption.
Qed.

End ParseFacts.

(** C1, as the spec words it, fails: a message whose envelope cannot be read
    makes [ParseDelivery] return the reader's error, and no [Delivery]. *)
Lemma ParseDelivery_unreadable_envelope_fails :
  ParseDelivery sample_ReadEnvelope 0 UnreadableMessage "alice"
    = Failed "malformed MIME header"
  /\ ~ (exists d, ParseDelivery sample_ReadEnvelope 0
                    UnreadableMessage "alice" = Returned d).
Proof.
  split.
  - reflexivity.
  - intros [d Hd]. cbv in Hd. discriminate Hd.
Qed.

(** C1 (amended): when the envelope cannot be read, [ParseDelivery] returns
    that error and no [Delivery]; when it can be read and the [From] list has
    a first address, [ParseDelivery] returns a [Delivery] whatever errors the
    two address lists reported, with the envelope's [Subject] (empty when the
    envelope has none) and the ingest time as date. *)
Theorem ParseDelivery_best_effort :
  forall (io_Reader : Type) (ReadEnvelope : io_Reader -> Envelope + error)
         (now : Time) (reader : io_Reader) (mailbox : string),
    (forall err, ReadEnvelope reader = inr err ->
       ParseDelivery ReadEnvelope now reader mailbox = Failed err)
    /\
    (forall env a rest,
       ReadEnvelope reader = inl env ->
       fst (AddressList env "From") = a :: rest ->
       exists d,
         ParseDelivery ReadEnvelope now reader mailbox = Returned d
         /\ Delivery_Subject d = GetHeader env "Subject"
         /\ Delivery_Date d = now
         /\ Mailbox (Meta d) = mailbox
         /\ From (Meta d) = Some a
         /\ To (Meta d) = fst (AddressList env "To")
         /\ Reader d = reader).
Proof.
  intros io_Reader ReadEnvelope now reader mailbox. split.
  - intros err Herr. now apply ParseDelivery_read_error.
  - intros env a rest Henv Hfrom.
    eexists. split.
    + eapply ParseDelivery_with_sender; eassumption.
    + cbn. repeat split.
Qed.

Lemma ParseDelivery_best_effort_witness :
  (exists d, ParseDelivery sample_ReadEnvelope 42 CompleteMessage "alice" = Returned d
             /\ Delivery_Subject d = "hi"%string
             /\ Delivery_Date d = 42
             /\ Mailbox (Meta d) = "alice"%string
             /\ From (Meta d) = Some bob
             /\ To (Meta d) = [alice]
             /\ Reader d = CompleteMessage)
  /\ ParseDelivery sample_ReadEnvelope 42 UnreadableMessage "alice"
     = Failed "malformed MIME header".
Proof.
  split.
  - exact (proj2 (ParseDelivery_best_effort SampleMessage sample_ReadEnvelope 42
                    CompleteMessage "alice")
                 complete_envelope bob [] eq_refl eq_refl).
  - exact (proj1 (ParseDelivery_best_effort SampleMessage sample_ReadEnvelope 42
                    UnreadableMessage "alice")
                 _ eq_refl).
Defined.

(** C5: [ParseDelivery] stamps every [Delivery] with the clock reading
    taken at the call.  Every [Delivery] it returns has that reading as
    [Date]; it does return such a [Delivery] for every envelope that is read
    and has a first [From] address; and what the envelope answers for the
    [Date:] header makes no difference to the result. *)
Theorem ParseDelivery_date_is_ingest_time :
  forall (io_Reader : Type) (ReadEnvelope : io_Reader -> Envelope + error)
         (now : Time) (reader : io_Reader) (mailbox : string),
    (forall d,
       ParseDelivery ReadEnvelope now reader mailbox = Returned d ->
       Delivery_Date d = now)
    /\ (forall env a rest,
       ReadEnvelope reader = inl env ->
       fst (AddressList env "From") = a :: rest ->
       exists d,
         ParseDelivery ReadEnvelope now reader mailbox = Returned d
         /\ Delivery_Date d = now)
    /\ (forall date,
       ParseDelivery (Getters.with_header "Date" date ReadEnvelope)
                     now reader mailbox
       = ParseDelivery ReadEnvelope now reader mailbox).
Proof.
  intros io_Reader ReadEnvelope now reader mailbox.
  split; [ | split ].
  - intros d H.
    destruct (ParseDelivery_returned_inv _ _ _ _ _ _ H)
      as (env & a & rest & _ & _ & ->).
    reflexivity.
  - intros env a rest Henv Hfrom. eexists. split.
    + eapply ParseDelivery_with_sender; eassumption.
    + reflexivity.
  - intros date. unfold ParseDelivery, Getters.with_header.
    destruct (ReadEnvelope reader) as [env | err]; reflexivity.
Qed.

Lemma ParseDelivery_date_is_ingest_time_witness :
  GetHeader complete_envelope "Date" = "Mon, 02 Jan 2006 15:04:05 -0700"
  /\ (exists d,
        ParseDelivery sample_ReadEnvelope 1700000000 CompleteMessage "alice"
        = Returned d
        /\ Delivery_Date d = 1700000000)
  /\ ParseDelivery (Getters.with_header "Date" "Tue, 03 Jan 2006 00:00:00 +0000"
                                        sample_ReadEnvelope)
                   1700000000 CompleteMessage "alice"
     = ParseDelivery sample_ReadEnvelope 1700000000 CompleteMessage "alice".
Proof.
  split; [ reflexivity | ].
  split.
  - exact (proj1 (proj2 (ParseDelivery_date_is_ingest_time SampleMessage
                           sample_ReadEnvelope 1700000000 CompleteMessage "alice"))
                 complete_envelope bob [] eq_refl eq_refl).
  - exact (proj2 (proj2 (ParseDelivery_date_is_ingest_time SampleMessage
                           sample_ReadEnvelope 1700000000 CompleteMessage "alice"))
                 "Tue, 03 Jan 2006 00:00:00 +0000").
Defined.

(** C9: when the envelope is read but its [From] address list is empty,
    [ParseDelivery] takes element 0 of the empty slice and panics; it returns
    neither a [Delivery] nor an error. *)
Theorem ParseDelivery_panics_without_sender :
  forall (io_Reader : Type) (ReadEnvelope : io_Reader -> Envelope + error)
         (now : Time) (reader : io_Reader) (mailbox : string) (env : Envelope),
    ReadEnvelope reader = inl env ->
    fst (AddressList env "From") = [] ->
    index (fst (AddressList env "From")) 0 = Panicked "index out of range"
    /\ panics (ParseDelivery ReadEnvelope now reader mailbox) = true
    /\ (forall d, ParseDelivery ReadEnvelope now reader mailbox <> Returned d)
    /\ (forall err, ParseDelivery ReadEnvelope now reader mailbox <> Failed err).
Proof.
  intros io_Reader ReadEnvelope now reader mailbox env Henv Hfrom.
  rewrite (ParseDelivery_without_sender _ _ _ _ _ _ Henv Hfrom).
  rewrite Hfrom. repeat split; intros; discriminate.
Qed.

Lemma ParseDelivery_panics_without_sender_witness :
  panics (ParseDelivery sample_ReadEnvelope 42 MessageWithoutFrom "alice") = true.
Proof.
  exact (proj1 (proj2 (ParseDelivery_panics_without_sender SampleMessage
                         sample_ReadEnvelope 42 MessageWithoutFrom "alice"
                         envelope_without_from eq_refl eq_refl))).
Defined.

End MessageFacts.

(* ================================================================== *)
(** * Properties of the POP3 listener *)
(* ================================================================== *)

Module Pop3Facts.
Import Go GoFacts Pop3.

(** ** Facts about the pieces *)

Lemma emergencyShutdown_returns (s : Server) :
  emergencyShutdown s = Returned (set_globalShutdown {| closed := true |} s).
Proof.
  destruct s as [[c] ctx n ss sl]. unfold emergencyShutdown, recv_ready, close.
  cbn. destruct c; reflexivity.
Qed.

Lemma emergencyShutdown_closed (s : Server) :
  closed (globalShutdown s) = true -> emergencyShutdown s = Returned s.
Proof.
  intros H. unfold emergencyShutdown, recv_ready. now rewrite H.
Qed.

Lemma emergencyShutdown_open (s : Server) :
  closed (globalShutdown s) = false ->
  emergencyShutdown s = bind (close (globalShutdown s))
                             (fun c => Returned (set_globalShutdown c s)).
Proof.
  intros H. unfold emergencyShutdown, recv_ready. now rewrite H.
Qed.

Lemma set_globalShutdown_same (s : Server) :
  closed (globalShutdown s) = true ->
  set_globalShutdown {| closed := true |} s = s.
Proof.
  destruct s as [[c] ctx n ss sl]. cbn. intros ->. reflexivity.
Qed.

Lemma backoff_zero : backoff 0 = 5 * Millisecond.
Proof. reflexivity. Qed.

Lemma backoff_positive (d : Duration) :
  0 < d <= Second -> backoff d = Z.min (2 * d) Second.
Proof.
  intros H. rewrite Second_value in H. unfold backoff.
  destruct (Z.eqb_spec d 0) as [-> | _]; [ lia | ].
  unfold mul64. rewrite wrap64_small by lia.
  rewrite Second_value.
  destruct (Z.gtb_spec (d * 2) (1 * 1000000000)); lia.
Qed.

Lemma expected_delay_first : expected_delay 1 = 5 * Millisecond.
Proof. reflexivity. Qed.

Lemma expected_delay_bounds (k : nat) :
  (1 <= k)%nat -> 5 * Millisecond <= expected_delay k <= 1 * Second.
Proof.
  intros Hk. unfold expected_delay.
  rewrite Millisecond_value, Second_value.
  assert (1 <= 2 ^ (Z.of_nat k - 1)) by (apply Z.pow_le_mono_r with (b := 0); lia).
  lia.
Qed.

Lemma expected_delay_next (k : nat) :
  (1 <= k)%nat -> expected_delay (S k) = Z.min (2 * expected_delay k) Second.
Proof.
  intros Hk. unfold expected_delay.
  replace (Z.of_nat (S k) - 1) with (Z.succ (Z.of_nat k - 1)) by lia.
  rewrite Z.pow_succ_r by lia.
  rewrite Millisecond_value, Second_value. lia.
Qed.

Lemma backoff_delay_after (k : nat) :
  backoff (delay_after k) = expected_delay (S k).
Proof.
  destruct k as [ | k ].
  - reflexivity.
  - cbn [delay_after].
    pose proof (expected_delay_bounds (S k) ltac:(lia)) as Hb.
    rewrite Millisecond_value in Hb.
    rewrite backoff_positive by lia.
    symmetry. apply expected_delay_next. lia.
Qed.

Lemma backoff_range (d : Duration) :
  d = 0 \/ 5 * Millisecond <= d <= 1 * Second ->
  5 * Millisecond <= backoff d <= 1 * Second.
Proof.
  rewrite Millisecond_value. intros [-> | H].
  - rewrite backoff_zero, Millisecond_value, Second_value. lia.
  - rewrite backoff_positive by lia. rewrite Second_value in *. lia.
Qed.

Lemma serve_iter_temporary (sid : Z) (r : AcceptResult) (d : Duration) (s : Server) :
  is_temporary r = true ->
  serve_iter sid r d s = Returned (Continue (backoff d) (time_Sleep (backoff d) s)).
Proof.
  destruct r as [conn | err]; cbn; [ discriminate | ].
  intros ->. reflexivity.
Qed.

Lemma serve_iter_accepted (sid : Z) (conn : Conn) (d : Duration) (s : Server) :
  0 <= wg s ->
  serve_iter sid (Accepted conn) d s =
  Returned (Continue 0 (go_startSession sid conn (set_wg (wg s + 1) s))).
Proof.
  intros H. cbn. unfold wg_Add.
  destruct (Z.ltb_spec (wg s + 1) 0); [ lia | reflexivity ].
Qed.

(** A run of temporary errors: the loop keeps going, and sleeps through
    the schedule. *)
Lemma serve_loop_temporary (errs : list AcceptResult) :
  Forall (fun r => is_temporary r = true) errs ->
  forall (k : nat) (sid : Z) (s : Server),
  exists o,
    serve_loop errs sid (delay_after k) s = Returned o
    /\ outcome_delay o = Some (delay_after (k + List.length errs))
    /\ slept (outcome_server o) =
       slept s ++ map expected_delay (seq (S k) (List.length errs))
    /\ wg (outcome_server o) = wg s
    /\ sessions (outcome_server o) = sessions s
    /\ globalShutdown (outcome_server o) = globalShutdown s.
Proof.
  induction 1 as [ | r errs Hr _ IH ]; intros k sid s.
  - exists (Accepting sid (delay_after k) s). cbn.
    rewrite Nat.add_0_r, app_nil_r. repeat split.
  - cbn [serve_loop]. rewrite (serve_iter_temporary _ _ _ _ Hr). cbn [bind].
    rewrite backoff_delay_after.
    destruct (IH (S k) (add64 sid 1) (time_Sleep (expected_delay (S k)) s))
      as (o & Hrun & Hd & Hs & Hw & Hse & Hg).
    exists o. cbn [delay_after] in Hrun. rewrite Hrun.
    cbn [List.length seq map].
    rewrite Hd, Hs, Hw, Hse, Hg. cbn [time_Sleep slept wg sessions globalShutdown].
    rewrite <- app_assoc, Nat.add_succ_r. repeat split.
Qed.

(** Whatever [Accept] returns, every sleep of [serve] lies between 5 ms and
    one second. *)
Lemma serve_loop_sleeps_bounded (accepts : list AcceptResult) :
  forall (sid : Z) (d : Duration) (s : Server) (o : ServeOutcome),
    d = 0 \/ 5 * Millisecond <= d <= 1 * Second ->
    serve_loop accepts sid d s = Returned o ->
    exists ds,
      slept (outcome_server o) = slept s ++ ds
      /\ Forall (fun x => 5 * Millisecond <= x <= 1 * Second) ds.
Proof.
  induction accepts as [ | r rest IH ]; intros sid d s o Hd Hrun.
  - cbn in Hrun. injection Hrun as <-. exists []. cbn.
    rewrite app_nil_r. split; [ reflexivity | constructor ].
  - cbn [serve_loop] in Hrun.
    destruct r as [conn | err].
    + cbn [serve_iter] in Hrun. unfold wg_Add in Hrun.
      destruct (wg s + 1 <? 0); [ discriminate | ]. cbn [bind] in Hrun.
      destruct (IH _ _ _ _ (or_introl eq_refl) Hrun) as (ds & Hs & Hb).
      exists ds. split; [ exact Hs | exact Hb ].
    + cbn [serve_iter] in Hrun.
      destruct (is_net_error err && temporary err).
      * cbn [bind] in Hrun.
        pose proof (backoff_range d Hd) as Hb.
        destruct (IH _ _ _ _ (or_intror Hb) Hrun) as (ds & Hs & Hds).
        exists (backoff d :: ds). split.
        -- rewrite Hs. cbn [time_Sleep slept]. now rewrite <- app_assoc.
        -- constructor; assumption.
      * exists []. rewrite app_nil_r. split; [ | constructor ].
        destruct (ctx_done s).
        -- cbn in Hrun. injection Hrun as <-. reflexivity.
        -- rewrite emergencyShutdown_returns in Hrun. cbn in Hrun.
           injection Hrun as <-. reflexivity.
Qed.

Lemma remove_session_length (x : Z * Conn) (l : list (Z * Conn)) :
  existsb (session_eqb x) l = true ->
  S (List.length (remove_session x l)) = List.length l.
Proof.
  induction l as [ | y l IH ]; cbn; [ discriminate | ].
  destruct (session_eqb x y); cbn; [ reflexivity | ].
  intros H. now rewrite IH.
Qed.

Lemma existsb_nonempty (x : Z * Conn) (l : list (Z * Conn)) :
  existsb (session_eqb x) l = true -> (1 <= List.length l)%nat.
Proof. destruct l; cbn; [ discriminate | lia ]. Qed.

(** The wait-group counts the sessions in flight, at every step. *)
Lemma step_counts (e : Event) (l l' : Listener) :
  wg (srv l) = in_flight l -> step e l = Some l' -> wg (srv l') = in_flight l'.
Proof.
  unfold in_flight. intros Hinv Hstep.
  destruct e as [sid conn | | sid conn]; cbn [step] in Hstep.
  - destruct (admitted l); [ discriminate | ].
    unfold wg_Add in Hstep.
    destruct (wg (srv l) + 1 <? 0); [ discriminate | ].
    injection Hstep as <-. cbn. lia.
  - destruct (admitted l) as [[sid conn] | ]; [ | discriminate ].
    injection Hstep as <-. cbn [srv admitted go_startSession set_sessions
                                  wg sessions List.length]. lia.
  - destruct (running (sid, conn) (srv l)) eqn:Hrun; [ | discriminate ].
    unfold running in Hrun.
    pose proof (remove_session_length _ _ Hrun) as Hlen.
    unfold session_exit, wg_Add in Hstep.
    destruct (wg (srv l) + -1 <? 0); [ discriminate | ].
    cbn in Hstep. injection Hstep as <-.
    cbn [srv admitted set_sessions set_wg wg sessions]. lia.
Qed.

Lemma run_counts (events : list Event) :
  forall l l', wg (srv l) = in_flight l -> run events l = Some l' ->
               wg (srv l') = in_flight l'.
Proof.
  induction events as [ | e rest IH ]; intros l l' Hinv Hrun; cbn in Hrun.
  - now injection Hrun as <-.
  - destruct (step e l) as [l1 | ] eqn:Hstep; [ | discriminate ].
    eapply IH; [ | exact Hrun ]. eapply step_counts; eassumption.
Qed.

(** ** The accept loop: backoff *)
(** C3: over a run of consecutive temporary accept errors, counted from the
    start of [serve] or from a successful accept (which sets the delay back
    to zero whatever it was), the [k]-th sleep lasts [expected_delay k]:
    5 ms first, then twice the one before, capped at one second; and
    whatever [Accept] returns, no sleep of [serve] is longer than one
    second. *)
Theorem serve_backoff_schedule :
  forall (errs : list AcceptResult) (conn : Conn) (sid : Z)
         (tempDelay : Duration) (s : Server),
    Forall (fun r => is_temporary r = true) errs ->
    0 <= wg s ->
    (exists o,
       serve errs s = Returned o
       /\ slept (outcome_server o) =
          slept s ++ map expected_delay (seq 1 (List.length errs))
       /\ outcome_delay o = Some (delay_after (List.length errs)))
    /\ (exists o,
       serve_loop (Accepted conn :: errs) sid tempDelay s = Returned o
       /\ slept (outcome_server o) =
          slept s ++ map expected_delay (seq 1 (List.length errs))
       /\ outcome_delay o = Some (delay_after (List.length errs)))
    /\ serve_loop [Accepted conn] sid tempDelay s =
       Returned (Accepting (add64 sid 1) 0
                   (go_startSession sid conn (set_wg (wg s + 1) s)))
    /\ (forall accepts o,
          serve accepts s = Returned o ->
          exists ds,
            slept (outcome_server o) = slept s ++ ds
            /\ Forall (fun d => 5 * Millisecond <= d <= 1 * Second) ds)
    /\ expected_delay 1 = 5 * Millisecond
    /\ (forall k, (1 <= k)%nat ->
          expected_delay (S k) = Z.min (2 * expected_delay k) (1 * Second))
    /\ (forall k, (1 <= k)%nat ->
          5 * Millisecond <= expected_delay k <= 1 * Second).
Proof.
  intros errs conn sid tempDelay s Htemp Hwg.
  split; [ | split; [ | split; [ | split; [ | split; [ | split ] ] ] ] ].
  - destruct (serve_loop_temporary errs Htemp 0%nat 1 s)
      as (o & Hrun & Hd & Hs & _).
    exists o. unfold serve. cbn [delay_after] in Hrun. auto.
  - cbn [serve_loop]. rewrite serve_iter_accepted by exact Hwg. cbn [bind].
    destruct (serve_loop_temporary errs Htemp 0%nat (add64 sid 1)
                (go_startSession sid conn (set_wg (wg s + 1) s)))
      as (o & Hrun & Hd & Hs & _).
    exists o. cbn [delay_after] in Hrun. auto.
  - cbn [serve_loop]. rewrite serve_iter_accepted by exact Hwg. reflexivity.
  - intros accepts o Hrun.
    eapply serve_loop_sleeps_bounded; [ left; reflexivity | exact Hrun ].
  - exact expected_delay_first.
  - exact expected_delay_next.
  - exact expected_delay_bounds.
Qed.

Lemma serve_backoff_schedule_witness :
  exists o,
    serve (repeat temporary_error 10) (New make_chan false) = Returned o
    /\ slept (outcome_server o) =
       [5000000; 10000000; 20000000; 40000000; 80000000; 160000000;
        320000000; 640000000; 1000000000; 1000000000].
Proof.
  destruct (serve_backoff_schedule (repeat temporary_error 10) 7 1 0
              (New make_chan false))
    as [(o & Hrun & Hs & _) _].
  - repeat constructor.
  - cbn. lia.
  - exists o. split; [ exact Hrun | exact Hs ].
Defined.

(** ** The accept loop and [Start]: permanent errors *)

(** C4: on a permanent accept error [serve] returns; with the context
    cancelled it leaves the server as it found it, otherwise it has run
    [emergencyShutdown], which leaves the shutdown channel closed.  A failed
    resolve or bind makes [Start] run [emergencyShutdown] and return at
    once; with the channel already closed nothing changes. *)
Theorem permanent_error_shutdown :
  forall (sid : Z) (r : AcceptResult) (tempDelay : Duration) (s : Server),
    is_permanent r = true ->
    (ctx_done s = true ->
       serve_iter sid r tempDelay s = Returned (Return s))
    /\ (ctx_done s = false ->
       serve_iter sid r tempDelay s =
         Returned (Return (set_globalShutdown {| closed := true |} s))
       /\ emergencyShutdown s =
         Returned (set_globalShutdown {| closed := true |} s)
       /\ (closed (globalShutdown s) = false ->
           close (globalShutdown s) = Returned {| closed := true |}))
    /\ (forall resolve_ok listen_ok,
       resolve_ok && listen_ok = false ->
       Start resolve_ok listen_ok s =
         Returned (StartReturned (set_globalShutdown {| closed := true |} s))
       /\ (closed (globalShutdown s) = true ->
           Start resolve_ok listen_ok s = Returned (StartReturned s))).
Proof.
  intros sid r tempDelay s Hperm.
  destruct r as [conn | err]; cbn in Hperm; [ discriminate | ].
  apply negb_true_iff in Hperm.
  split; [ | split ].
  - intros Hctx. cbn [serve_iter]. now rewrite Hperm, Hctx.
  - intros Hctx. cbn [serve_iter]. rewrite Hperm, Hctx.
    rewrite emergencyShutdown_returns. cbn [bind].
    repeat split. apply close_open.
  - intros resolve_ok listen_ok Hfail.
    assert (Hstart : Start resolve_ok listen_ok s =
                     bind (emergencyShutdown s)
                          (fun s' => Returned (StartReturned s'))).
    { unfold Start. destruct resolve_ok, listen_ok; try reflexivity.
      discriminate Hfail. }
    rewrite Hstart, emergencyShutdown_returns. cbn [bind]. split.
    + reflexivity.
    + intros Hclosed. now rewrite set_globalShutdown_same.
Qed.

Lemma permanent_error_shutdown_witness :
  serve_iter 3 permanent_error 0 (New make_chan true)
    = Returned (Return (New make_chan true))
  /\ serve_iter 3 permanent_error 0 (New make_chan false)
    = Returned (Return (New {| closed := true |} false))
  /\ Start true false (New make_chan false)
    = Returned (StartReturned (New {| closed := true |} false)).
Proof.
  split; [ | split ].
  - exact (proj1 (permanent_error_shutdown 3 permanent_error 0
                    (New make_chan true) eq_refl) eq_refl).
  - exact (proj1 (proj1 (proj2 (permanent_error_shutdown 3 permanent_error 0
                                  (New make_chan false) eq_refl)) eq_refl)).
  - exact (proj1 (proj2 (proj2 (permanent_error_shutdown 3 permanent_error 0
                                  (New make_chan false) eq_refl))
                        true false eq_refl)).
Defined.

(** ** Sessions and [Drain] *)

(** C6: [serve] admits a connection by [s.wg.Add(1)] first and the [go]
    statement second; from a fresh listener, after any sequence of
    admissions and session exits, the wait-group counts the sessions in
    flight, [Drain] gets past its wait exactly when the counter is zero, and
    so it stays blocked while any session is running or admitted. *)
Theorem drain_waits_for_sessions :
  forall (shutdownChan : Chan) (ctx_cancelled : bool)
         (events : list Event) (l : Listener),
    run events (listening shutdownChan ctx_cancelled) = Some l ->
    wg (srv l) = in_flight l
    /\ (Drain (srv l) = Some (srv l) <-> wg (srv l) = 0)
    /\ (Drain (srv l) = None <-> wg (srv l) <> 0)
    /\ (forall x, running x (srv l) = true -> Drain (srv l) = None)
    /\ (admitted l <> None -> Drain (srv l) = None)
    /\ (forall sid conn tempDelay,
          admitted l = None ->
          exists l1 l2,
            step (ServeAdd sid conn) l = Some l1
            /\ step ServeGo l1 = Some l2
            /\ wg (srv l1) = wg (srv l) + 1
            /\ sessions (srv l1) = sessions (srv l)
            /\ sessions (srv l2) = (sid, conn) :: sessions (srv l)
            /\ serve_iter sid (Accepted conn) tempDelay (srv l)
               = Returned (Continue 0 (srv l2))).
Proof.
  intros shutdownChan ctx_cancelled events l Hrun.
  assert (Hinv : wg (srv l) = in_flight l).
  { eapply run_counts; [ | exact Hrun ]. reflexivity. }
  assert (Hwait : forall s, (Drain s = Some s <-> wg s = 0)
                            /\ (Drain s = None <-> wg s <> 0)).
  { intros s. unfold Drain, wg_Wait.
    destruct (Z.eqb_spec (wg s) 0); split; split; intros; try congruence. }
  unfold in_flight in Hinv.
  split; [ exact Hinv | ].
  split; [ apply Hwait | ].
  split; [ apply Hwait | ].
  split; [ | split ].
  - intros x Hx. apply Hwait. unfold running in Hx.
    pose proof (existsb_nonempty _ _ Hx). destruct (admitted l); lia.
  - intros Hadm. apply Hwait. destruct (admitted l); [ lia | congruence ].
  - intros sid conn tempDelay Hadm.
    assert (Hwg : 0 <= wg (srv l)) by (rewrite Hadm in Hinv; lia).
    exists {| srv := set_wg (wg (srv l) + 1) (srv l);
              admitted := Some (sid, conn) |}.
    exists {| srv := go_startSession sid conn (set_wg (wg (srv l) + 1) (srv l));
              admitted := None |}.
    split; [ | split; [ | split; [ | split; [ | split ] ] ] ];
      try reflexivity.
    + cbn [step]. rewrite Hadm. unfold wg_Add.
      destruct (Z.ltb_spec (wg (srv l) + 1) 0); [ lia | reflexivity ].
    + now apply serve_iter_accepted.
Qed.

Lemma drain_waits_for_sessions_witness :
  exists l,
    run [ServeAdd 1 100; ServeGo; ServeAdd 2 101; ServeGo; SessionExit 1 100]
        (listening make_chan false) = Some l
    /\ sessions (srv l) = [(2, 101)]
    /\ wg (srv l) = 1
    /\ Drain (srv l) = None.
Proof.
  eexists. split; [ reflexivity | ].
  split; [ reflexivity | ].
  split; [ reflexivity | ].
  refine (proj1 (proj2 (proj2 (proj2
            (drain_waits_for_sessions make_chan false
               [ServeAdd 1 100; ServeGo; ServeAdd 2 101; ServeGo;
                SessionExit 1 100] _ eq_refl)))) (2, 101) eq_refl).
Defined.

End Pop3Facts.

(* ================================================================== *)
(** * Properties of the daemon *)
(* ================================================================== *)

Module MainFacts.
Import Go GoFacts Main.

Section DaemonFacts.

Context {IServer : Type}.

Local Abbreviation State := (Main.State IServer).
Local Abbreviation ServerTuple := (Main.ServerTuple IServer).
Local Abbreviation Effect := (Main.Effect IServer).

Lemma trace_emit (e : Effect) (st : State) : trace (emit e st) = trace st ++ [e].
Proof. reflexivity. Qed.

Lemma emit_all_app (es fs : list Effect) (st : State) :
  emit_all (es ++ fs) st = emit_all fs (emit_all es st).
Proof. unfold emit_all. apply fold_left_app. Qed.

Lemma emit_all_state (es : list Effect) :
  forall st : State,
    emit_all es st =
    {| shutdownChan := shutdownChan st; sigChan := sigChan st;
       rootCancelled := rootCancelled st; trace := trace st ++ es |}.
Proof.
  induction es as [ | e es IH ]; intros st.
  - cbn. rewrite app_nil_r. now destruct st.
  - cbn [emit_all fold_left]. fold (emit_all es (emit e st)).
    rewrite IH. cbn. now rewrite <- app_assoc.
Qed.

Lemma ServerTuple_Drain_returns (t : ServerTuple) (st : State) :
  ServerTuple_Drain t st = Returned (emit_all (drain_calls t) st).
Proof.
  destruct t as [[a | ] [b | ]]; reflexivity.
Qed.

Lemma shutdown_sequence_returns (pidfile : string) (smtp pop3 : ServerTuple)
      (st : State) :
  shutdown_sequence pidfile smtp pop3 st =
  Returned (emit_all ([GoTimedExit pidfile] ++ drain_calls smtp
                      ++ drain_calls pop3 ++ [JoinScanner]
                      ++ removePIDFile pidfile ++ [CloseLog]) st).
Proof.
  unfold shutdown_sequence.
  rewrite ServerTuple_Drain_returns. cbn [bind].
  rewrite ServerTuple_Drain_returns. cbn [bind].
  rewrite !emit_all_app. reflexivity.
Qed.

Lemma effects_since_app (st : State) (es : list Effect) :
  effects_since st (emit_all es st) = es.
Proof.
  unfold effects_since. rewrite emit_all_state. cbn [trace].
  rewrite skipn_app, skipn_all, Nat.sub_diag. reflexivity.
Qed.

(** ** [ServerTuple.Drain] *)

(** C10: whichever of [v4] and [v6] are [nil], [ServerTuple.Drain] returns
    without a panic, and what it has done is one call of [Drain] on each
    member that is not [nil], the one on [v4] before the one on [v6]. *)
Theorem ServerTuple_Drain_total :
  forall (t : ServerTuple) (st : State),
    exists st',
      ServerTuple_Drain t st = Returned st'
      /\ panics (ServerTuple_Drain t st) = false
      /\ trace st' = trace st ++
           match v4 t, v6 t with
           | Some a, Some b => [CallDrain a; CallDrain b]
           | Some a, None => [CallDrain a]
           | None, Some b => [CallDrain b]
           | None, None => []
           end
      /\ shutdownChan st' = shutdownChan st
      /\ sigChan st' = sigChan st
      /\ rootCancelled st' = rootCancelled st.
Proof.
  intros t st. exists (emit_all (drain_calls t) st).
  rewrite ServerTuple_Drain_returns, emit_all_state.
  repeat split.
Qed.

(** ** The signal loop *)

Lemma signalLoop_turn_closed (st : State) (sig : Signal) (queued : list Signal) :
  closed (shutdownChan st) = true ->
  sigChan st = sig :: queued ->
  notified sig = true ->
  signalLoop_turn CaseSignal st = Some (Panicked "close of closed channel").
Proof.
  destruct st as [[c] q r tr]. cbn [shutdownChan sigChan closed].
  intros -> -> Hsig.
  destruct sig; try discriminate Hsig; reflexivity.
Qed.

Lemma listener_emergency_closed (st : State) :
  closed (shutdownChan st) = true -> listener_emergency st = Returned st.
Proof.
  intros H. unfold listener_emergency.
  rewrite Pop3Facts.emergencyShutdown_closed by exact H.
  cbn. destruct st as [[c] q r tr]. reflexivity.
Qed.


(** C2: the closes in the signal loop are not guarded.  A second signal
    taken by the [select] after the first has closed the shutdown channel,
    or a first signal taken after a listener's emergency shutdown, closes
    the closed channel, and [main] panics.  A listener's
    [emergencyShutdown], for its part, leaves a closed channel alone. *)
Theorem signal_loop_closes_closed_channel :
  signalLoop [Raise SIGINT; Select CaseSignal; Raise SIGTERM; Select CaseSignal]
             (initial (IServer := IServer))
    = Crashed "close of closed channel"
  /\ signalLoop [ListenerEmergency; Raise SIGINT; Select CaseSignal]
                (initial (IServer := IServer))
    = Crashed "close of closed channel"
  /\ (forall (st : State) (sig : Signal) (queued : list Signal),
        closed (shutdownChan st) = true ->
        sigChan st = sig :: queued ->
        notified sig = true ->
        case_ready CaseSignal st = true
        /\ signalLoop (Select CaseSignal :: nil) st
           = Crashed "close of closed channel")
  /\ (forall st : State,
        closed (shutdownChan st) = true ->
        signalLoop [ListenerEmergency] st = InLoop st).
Proof.
  split; [ reflexivity | ].
  split; [ reflexivity | ].
  split.
  - intros st sig queued Hclosed Hq Hsig. split.
    + unfold case_ready. now rewrite Hq.
    + cbn [signalLoop].
      now rewrite (signalLoop_turn_closed st sig queued Hclosed Hq Hsig).
  - intros st Hclosed. cbn [signalLoop].
    now rewrite listener_emergency_closed.
Qed.

(** ** The watchdog *)

Variable drain_time : IServer -> option Duration.
Variable join_time : option Duration.

Lemma timedExit_end (pidfile : string) (t : Z) :
  goroutine_end drain_time join_time (timedExit pidfile) t
  = ExitsAt (t + 15 * Second) 0.
Proof.
  unfold timedExit, removePIDFile.
  destruct (negb (String.eqb pidfile "")); cbn; f_equal; lia.
Qed.

Lemma drain_calls_only_drain (t : ServerTuple) :
  Forall (fun e => exists server, e = CallDrain server) (drain_calls t).
Proof.
  destruct t as [[a | ] [b | ]]; cbn; repeat constructor; eexists; reflexivity.
Qed.

(** Calls of [Drain] that are not through by the armed exit end in it. *)
Lemma overrun_ends_in_exit (drains : list Effect) :
  Forall (fun e => exists server, e = CallDrain server) drains ->
  forall (rest : list Effect) (t tw code : Z),
    t <= tw ->
    exceeds (goroutine_end drain_time join_time drains t) tw ->
    process_end drain_time join_time (drains ++ rest) t (Some (tw, code))
    = ExitsAt tw code.
Proof.
  induction 1 as [ | e drains [server ->] _ IH ]; intros rest t tw code Ht Hex.
  - cbn in Hex. lia.
  - cbn [app process_end goroutine_end duration_of] in *.
    destruct (drain_time server) as [d | ]; [ | reflexivity ].
    destruct (Z.ltb_spec tw (t + d)); [ reflexivity | ].
    apply IH; assumption.
Qed.

(** C7: [main] arms the watchdog before it drains anything, the watchdog
    exits the process with status 0 after its sleep of 15 seconds whatever
    the pidfile and the listeners are, and when the drain of the listeners
    is not over 15 seconds after the loop was left, that exit is how the
    process ends. *)
Theorem watchdog_forces_exit :
  forall (pidfile : string) (smtp pop3 : ServerTuple) (st st' : State) (t0 : Z),
    shutdown_sequence pidfile smtp pop3 st = Returned st' ->
    exceeds (goroutine_end drain_time join_time
               (drain_calls smtp ++ drain_calls pop3) t0)
            (t0 + 15 * Second) ->
    effects_since st st' =
      [GoTimedExit pidfile] ++ drain_calls smtp ++ drain_calls pop3
      ++ [JoinScanner] ++ removePIDFile pidfile ++ [CloseLog]
    /\ timedExit (IServer := IServer) pidfile =
       [Sleep 15000000000] ++ removePIDFile pidfile ++ [LogForcedExit; OsExit 0]
    /\ goroutine_end drain_time join_time (timedExit pidfile) t0
       = ExitsAt (t0 + 15 * Second) 0
    /\ process_end drain_time join_time (effects_since st st') t0 None
       = ExitsAt (t0 + 15 * Second) 0.
Proof.
  intros pidfile smtp pop3 st st' t0 Hrun Hex.
  assert (Hst : st' = emit_all ([GoTimedExit pidfile] ++ drain_calls smtp
                                ++ drain_calls pop3 ++ [JoinScanner]
                                ++ removePIDFile pidfile ++ [CloseLog]) st).
  { rewrite shutdown_sequence_returns in Hrun. congruence. }
  rewrite Hst, effects_since_app.
  split; [ reflexivity | ].
  split; [ reflexivity | ].
  split; [ apply timedExit_end | ].
  cbn [app process_end]. rewrite timedExit_end.
  rewrite app_assoc.
  apply overrun_ends_in_exit.
  - apply Forall_app. split; apply drain_calls_only_drain.
  - rewrite Second_value. lia.
  - exact Hex.
Qed.

End DaemonFacts.

Lemma watchdog_forces_exit_witness :
  exists st',
    shutdown_sequence "" sample_smtp sample_pop3 initial = Returned st'
    /\ process_end sample_drain_time sample_join_time
                   (effects_since initial st') 1000 None
       = ExitsAt 15000001000 0.
Proof.
  eexists. split; [ reflexivity | ].
  exact (proj2 (proj2 (proj2
           (watchdog_forces_exit sample_drain_time sample_join_time ""
              sample_smtp sample_pop3 initial _ 1000 eq_refl I)))).
Defined.

End MainFacts.

(* ================================================================== *)
(** * Further properties of package message *)
(* ================================================================== *)

Module GettersFacts.
Import Go Message Getters MessageFacts.

(** X1: when [ParseDelivery] returns, it is clear why.  It returns an
    error exactly when [ReadEnvelope] returned one, and then that very
    error; it returns a [Delivery] exactly when the envelope was read and
    its [From] list has an address.  The errors of [AddressList] are never
    returned. *)
Theorem ParseDelivery_outcomes :
  forall (io_Reader : Type) (ReadEnvelope : io_Reader -> Envelope + error)
         (now : Time) (reader : io_Reader) (mailbox : string),
    (forall err,
       ParseDelivery ReadEnvelope now reader mailbox = Failed err
       <-> ReadEnvelope reader = inr err)
    /\ ((exists d, ParseDelivery ReadEnvelope now reader mailbox = Returned d)
        <-> (exists env, ReadEnvelope reader = inl env
                         /\ fst (AddressList env "From") <> []))
    /\ (forall env err,
          ReadEnvelope reader = inl env ->
          ParseDelivery ReadEnvelope now reader mailbox <> Failed err).
Proof.
  intros io_Reader ReadEnvelope now reader mailbox.
  destruct (ReadEnvelope reader) as [env | err0] eqn:Hread.
  - destruct (fst (AddressList env "From")) as [ | a rest ] eqn:Hfrom.
    + rewrite (ParseDelivery_without_sender _ _ _ _ _ _ Hread Hfrom).
      split; [ | split ].
      * intros err. split; discriminate.
      * split.
        -- intros [d Hd]. discriminate Hd.
        -- intros (env' & Henv' & Hne). injection Henv' as <-.
           now rewrite Hfrom in Hne.
      * intros env' err _. discriminate.
    + rewrite (ParseDelivery_with_sender _ _ _ _ _ _ _ _ Hread Hfrom).
      split; [ | split ].
      * intros err. split; discriminate.
      * split.
        -- intros _. exists env. split; [ reflexivity | ].
           rewrite Hfrom. discriminate.
        -- intros _. eexists. reflexivity.
      * intros env' err _. discriminate.
  - rewrite (ParseDelivery_read_error _ _ _ _ _ _ Hread).
    split; [ | split ].
    + intros err. split; intros H; injection H as <-; reflexivity.
    + split.
      * intros [d Hd]. discriminate Hd.
      * intros (env & Henv & _). discriminate Henv.
    + intros env err Henv. discriminate Henv.
Qed.

(** X2: [ParseDelivery] depends on the envelope through the [From] slice,
    the [To] slice and the [Subject] header only: two envelope readers that
    agree on these (or fail alike) give the same result, whatever they say
    of any other header and whatever errors the address lists carry. *)
Theorem ParseDelivery_reads_three_headers :
  forall (io_Reader : Type) (ReadEnvelope1 ReadEnvelope2 : io_Reader -> Envelope + error)
         (now : Time) (reader : io_Reader) (mailbox : string),
    same_for_ParseDelivery (ReadEnvelope1 reader) (ReadEnvelope2 reader) ->
    ParseDelivery ReadEnvelope1 now reader mailbox
    = ParseDelivery ReadEnvelope2 now reader mailbox.
Proof.
  intros io_Reader RE1 RE2 now reader mailbox Hsame.
  unfold same_for_ParseDelivery in Hsame. unfold ParseDelivery.
  destruct (RE1 reader) as [env1 | e1], (RE2 reader) as [env2 | e2];
    try contradiction.
  - destruct Hsame as (Hfrom & Hto & Hsubject). cbv zeta.
    now rewrite Hfrom, Hto, Hsubject.
  - now subst.
Qed.

Lemma ParseDelivery_reads_three_headers_witness :
  GetHeader complete_envelope "Date" <> GetHeader other_complete_envelope "Date"
  /\ snd (AddressList complete_envelope "From")
     <> snd (AddressList other_complete_envelope "From")
  /\ ParseDelivery sample_ReadEnvelope 7 CompleteMessage "alice"
     = ParseDelivery (fun _ => inl other_complete_envelope) 7 CompleteMessage "alice".
Proof.
  split; [ discriminate | ].
  split; [ discriminate | ].
  apply (ParseDelivery_reads_three_headers SampleMessage sample_ReadEnvelope
           (fun _ => inl other_complete_envelope) 7 CompleteMessage "alice").
  repeat split.
Defined.

(** X3: a [Delivery] that [ParseDelivery] returns has an empty [ID], size 0
    and is unseen, whatever the message; its [Source] never fails and hands
    back the very reader that was given to [ReadEnvelope]; [From] is the
    first address of the envelope's [From] list and the others are
    dropped. *)
Theorem parsed_Delivery_getters :
  forall (io_Reader : Type) (ReadEnvelope : io_Reader -> Envelope + error)
         (now : Time) (reader : io_Reader) (mailbox : string)
         (d : Delivery io_Reader),
    ParseDelivery ReadEnvelope now reader mailbox = Returned d ->
    Delivery_ID d = ""
    /\ Delivery_Size d = 0
    /\ Delivery_Seen d = false
    /\ Delivery_Mailbox d = mailbox
    /\ Delivery_Source d = Returned reader
    /\ exists env,
         ReadEnvelope reader = inl env
         /\ Delivery_From d = hd_error (fst (AddressList env "From"))
         /\ Delivery_To d = fst (AddressList env "To").
Proof.
  intros io_Reader ReadEnvelope now reader mailbox d H.
  destruct (ParseDelivery_returned_inv _ _ _ _ _ _ H)
    as (env & a & rest & Henv & Hfrom & ->).
  repeat split. exists env. rewrite Hfrom. repeat split. exact Henv.
Qed.

Lemma parsed_Delivery_getters_witness :
  exists d,
    ParseDelivery sample_ReadEnvelope 7 CompleteMessage "alice" = Returned d
    /\ Delivery_ID d = "" /\ Delivery_Size d = 0 /\ Delivery_Seen d = false
    /\ Delivery_Source d = Returned CompleteMessage.
Proof.
  eexists. split; [ reflexivity | ].
  destruct (parsed_Delivery_getters SampleMessage sample_ReadEnvelope 7
              CompleteMessage "alice" _ eq_refl) as (H1 & H2 & H3 & _ & H5 & _).
  repeat split; assumption.
Defined.

End GettersFacts.

(* ================================================================== *)
(** * Further properties of the POP3 listener *)
(* ================================================================== *)

Module AcceptsFacts.
Import Go GoFacts Pop3 Pop3Facts Accepts.

Lemma not_permanent_cases (r : AcceptResult) :
  is_permanent r = false ->
  (exists conn, r = Accepted conn) \/ is_temporary r = true.
Proof.
  destruct r as [conn | err]; cbn.
  - intros _. left. now exists conn.
  - intros H. right. now apply negb_false_iff in H.
Qed.

Lemma accepted_sessions_length (accepts : list AcceptResult) :
  forall sid, List.length (accepted_sessions sid accepts)
              = List.length (filter is_accepted accepts).
Proof.
  induction accepts as [ | [conn | err] rest IH ]; intros sid; cbn.
  - reflexivity.
  - now rewrite IH.
  - apply IH.
Qed.

Lemma accepted_sessions_lower (accepts : list AcceptResult) :
  forall sid x, In x (map fst (accepted_sessions sid accepts)) -> sid <= x.
Proof.
  induction accepts as [ | [conn | err] rest IH ]; intros sid x; cbn.
  - contradiction.
  - intros [<- | H]; [ lia | ]. apply IH in H. lia.
  - intros H. apply IH in H. lia.
Qed.

Lemma accepted_sessions_upper (accepts : list AcceptResult) :
  forall sid x, In x (map fst (accepted_sessions sid accepts)) ->
                x < sid + Z.of_nat (List.length accepts).
Proof.
  induction accepts as [ | [conn | err] rest IH ]; intros sid x;
    cbn [accepted_sessions map fst List.length In].
  - contradiction.
  - intros [<- | H]; [ lia | ]. apply IH in H. lia.
  - intros H. apply IH in H. lia.
Qed.

Lemma accepted_sessions_NoDup (accepts : list AcceptResult) :
  forall sid, NoDup (map fst (accepted_sessions sid accepts)).
Proof.
  induction accepts as [ | [conn | err] rest IH ]; intros sid; cbn.
  - constructor.
  - constructor; [ | apply IH ].
    intros H. apply accepted_sessions_lower in H. lia.
  - apply IH.
Qed.

Lemma accepted_sessions_nth (accepts : list AcceptResult) :
  forall sid i conn,
    nth_error accepts i = Some (Accepted conn) ->
    In (sid + Z.of_nat i, conn) (accepted_sessions sid accepts).
Proof.
  induction accepts as [ | r rest IH ]; intros sid i conn H.
  - destruct i; discriminate H.
  - destruct i as [ | i ].
    + cbn in H. injection H as ->. cbn. left. f_equal. lia.
    + cbn [nth_error] in H. apply (IH (sid + 1)) in H.
      replace (sid + Z.of_nat (S i)) with (sid + 1 + Z.of_nat i) by lia.
      destruct r; cbn; [ right | ]; exact H.
Qed.

(** The loop over results none of which is a permanent error. *)
Lemma serve_loop_no_permanent (accepts : list AcceptResult) :
  existsb is_permanent accepts = false ->
  forall (sid : Z) (d : Duration) (s : Server),
    0 <= wg s ->
    - 2 ^ 63 <= sid ->
    sid + Z.of_nat (List.length accepts) < 2 ^ 63 ->
    exists d' s',
      serve_loop accepts sid d s
      = Returned (Accepting (sid + Z.of_nat (List.length accepts)) d' s')
      /\ globalShutdown s' = globalShutdown s
      /\ ctx_done s' = ctx_done s
      /\ wg s' = wg s + Z.of_nat (List.length (accepted_sessions sid accepts))
      /\ sessions s' = rev (accepted_sessions sid accepts) ++ sessions s.
Proof.
  induction accepts as [ | r rest IH ]; intros Hperm sid d s Hwg Hlo Hhi.
  - exists d, s. cbn. rewrite !Z.add_0_r. repeat split.
  - cbn [existsb] in Hperm. apply orb_false_iff in Hperm as [Hr Hrest].
    cbn [List.length] in Hhi.
    assert (Hsid : add64 sid 1 = sid + 1).
    { unfold add64. apply wrap64_small. lia. }
    cbn [serve_loop].
    destruct (not_permanent_cases r Hr) as [[conn ->] | Htemp].
    + rewrite serve_iter_accepted by exact Hwg. cbn [bind]. rewrite Hsid.
      destruct (IH Hrest (sid + 1) 0
                   (go_startSession sid conn (set_wg (wg s + 1) s)))
        as (d' & s' & Hrun & Hg & Hc & Hw & Hs).
      * cbn. lia.
      * lia.
      * lia.
      * exists d', s'. rewrite Hrun, Hg, Hc, Hw, Hs.
        cbn [accepted_sessions List.length rev go_startSession set_sessions set_wg
             wg sessions globalShutdown ctx_done].
        rewrite <- app_assoc.
        repeat split; try lia; try (do 2 f_equal; lia).
    + rewrite (serve_iter_temporary _ _ _ _ Htemp). cbn [bind]. rewrite Hsid.
      destruct (IH Hrest (sid + 1) (backoff d) (time_Sleep (backoff d) s))
        as (d' & s' & Hrun & Hg & Hc & Hw & Hs).
      * exact Hwg.
      * lia.
      * lia.
      * exists d', s'. rewrite Hrun, Hg, Hc, Hw, Hs.
        destruct r as [conn | err]; [ discriminate Htemp | ].
        cbn [accepted_sessions List.length time_Sleep wg sessions globalShutdown ctx_done].
        repeat split; try lia; try (do 2 f_equal; lia).
Qed.

Lemma serve_loop_app (a b : list AcceptResult) :
  forall (sid : Z) (d : Duration) (s : Server),
    serve_loop (a ++ b) sid d s =
    bind (serve_loop a sid d s) (fun o =>
      match o with
      | Accepting sid' d' s' => serve_loop b sid' d' s'
      | Finished s' => Returned (Finished s')
      end).
Proof.
  induction a as [ | r a IH ]; intros sid d s.
  - reflexivity.
  - cbn [app serve_loop].
    destruct (serve_iter sid r d s) as [[d1 s1 | s1] | e | m]; cbn [bind];
      try reflexivity.
    apply IH.
Qed.

Lemma serve_iter_permanent (sid : Z) (r : AcceptResult) (d : Duration) (s : Server) :
  is_permanent r = true ->
  serve_iter sid r d s = Returned (Return (after_permanent_error s)).
Proof.
  destruct r as [conn | err]; cbn; [ discriminate | ].
  intros H. apply negb_true_iff in H. rewrite H.
  unfold after_permanent_error.
  destruct (ctx_done s); [ reflexivity | ].
  now rewrite emergencyShutdown_returns.
Qed.

(** X4: as long as [Accept] returns no permanent error, [serve] keeps
    accepting without a panic, and has added to the wait-group exactly the
    number of connections accepted, which is the number of sessions it has
    started; [Drain] gets past its wait only if that leaves the counter at
    zero. *)
Theorem serve_counts_accepted :
  forall (accepts : list AcceptResult) (s : Server),
    existsb is_permanent accepts = false ->
    0 <= wg s ->
    Z.of_nat (List.length accepts) < 2 ^ 62 ->
    exists d' s',
      serve accepts s
      = Returned (Accepting (1 + Z.of_nat (List.length accepts)) d' s')
      /\ wg s' = wg s + Z.of_nat (List.length (filter is_accepted accepts))
      /\ List.length (sessions s')
         = (List.length (filter is_accepted accepts)
            + List.length (sessions s))%nat
      /\ globalShutdown s' = globalShutdown s
      /\ (Drain s' = Some s' <->
          wg s = 0 /\ filter is_accepted accepts = []).
Proof.
  intros accepts s Hperm Hwg Hlen.
  destruct (serve_loop_no_permanent accepts Hperm 1 0 s Hwg)
    as (d' & s' & Hrun & Hg & _ & Hw & Hs); [ lia | lia | ].
  exists d', s'. unfold serve. rewrite Hrun.
  rewrite accepted_sessions_length in Hw.
  split; [ reflexivity | ].
  split; [ exact Hw | ].
  split.
  { rewrite Hs, length_app, length_rev. now rewrite accepted_sessions_length. }
  split; [ exact Hg | ].
  unfold Drain, wg_Wait. rewrite Hw.
  destruct (filter is_accepted accepts) as [ | r l ]; cbn [List.length].
  - destruct (Z.eqb_spec (wg s + Z.of_nat 0) 0); split.
    + intros _. split; [ lia | reflexivity ].
    + reflexivity.
    + discriminate.
    + intros [H0 _]. lia.
  - destruct (Z.eqb_spec (wg s + Z.of_nat (S (List.length l))) 0); split.
    + lia.
    + intros [_ H]. discriminate H.
    + discriminate.
    + intros [_ H]. discriminate H.
Qed.

Lemma serve_counts_accepted_witness :
  exists d' s',
    serve [Accepted 100; temporary_error; Accepted 101] (New make_chan false)
    = Returned (Accepting 4 d' s')
    /\ wg s' = 2.
Proof.
  destruct (serve_counts_accepted [Accepted 100; temporary_error; Accepted 101]
              (New make_chan false) eq_refl)
    as (d' & s' & Hrun & Hw & _).
  - cbn. lia.
  - cbn. lia.
  - exists d', s'. split; [ exact Hrun | exact Hw ].
Defined.

(** X5: the session started for the connection of the [i]-th [Accept]
    (counted from 0) carries the id [i + 1], so that failed calls use up
    ids too, and no two sessions started by one [serve] share an id. *)
Theorem serve_session_ids :
  forall (accepts : list AcceptResult) (ch : Chan) (ctx_cancelled : bool),
    existsb is_permanent accepts = false ->
    Z.of_nat (List.length accepts) < 2 ^ 62 ->
    exists sid' d' s',
      serve accepts (New ch ctx_cancelled) = Returned (Accepting sid' d' s')
      /\ sessions s' = rev (accepted_sessions 1 accepts)
      /\ NoDup (map fst (sessions s'))
      /\ (forall i conn,
            nth_error accepts i = Some (Accepted conn) ->
            In (Z.of_nat i + 1, conn) (sessions s'))
      /\ (forall sid conn,
            In (sid, conn) (sessions s') ->
            1 <= sid <= Z.of_nat (List.length accepts)).
Proof.
  intros accepts ch ctx_cancelled Hperm Hlen.
  destruct (serve_loop_no_permanent accepts Hperm 1 0 (New ch ctx_cancelled))
    as (d' & s' & Hrun & _ & _ & _ & Hs); [ cbn; lia | lia | lia | ].
  cbn [New sessions] in Hs. rewrite app_nil_r in Hs.
  eexists _, d', s'. unfold serve. rewrite Hrun, Hs.
  split; [ reflexivity | ].
  split; [ reflexivity | ].
  split.
  { rewrite map_rev. apply NoDup_rev. apply accepted_sessions_NoDup. }
  split.
  { intros i conn Hnth. apply in_rev. rewrite rev_involutive.
    replace (Z.of_nat i + 1) with (1 + Z.of_nat i) by lia.
    now apply accepted_sessions_nth. }
  intros sid conn Hin. apply in_rev in Hin.
  split.
  - apply (accepted_sessions_lower accepts 1 sid).
    apply in_map_iff. exists (sid, conn). now split.
  - assert (sid < 1 + Z.of_nat (List.length accepts)); [ | lia ].
    apply (accepted_sessions_upper accepts 1 sid).
    apply in_map_iff. exists (sid, conn). now split.
Qed.

Lemma serve_session_ids_witness :
  exists sid' d' s',
    serve [temporary_error; Accepted 100; temporary_error; Accepted 101]
          (New make_chan false) = Returned (Accepting sid' d' s')
    /\ sessions s' = [(4, 101); (2, 100)].
Proof.
  destruct (serve_session_ids
              [temporary_error; Accepted 100; temporary_error; Accepted 101]
              make_chan false eq_refl)
    as (sid' & d' & s' & Hrun & Hs & _).
  - cbn. lia.
  - exists sid', d', s'. split; [ exact Hrun | exact Hs ].
Defined.

(** X6: [serve] ends at the first permanent error and never looks at what
    a later [Accept] would return; what it leaves is the state the loop had
    reached, with the shutdown channel closed unless the context was
    cancelled. *)
Theorem serve_ends_at_first_permanent_error :
  forall (accepts rest : list AcceptResult) (perm : AcceptResult) (s : Server),
    existsb is_permanent accepts = false ->
    is_permanent perm = true ->
    0 <= wg s ->
    Z.of_nat (List.length accepts) < 2 ^ 62 ->
    exists sid d s0,
      serve accepts s = Returned (Accepting sid d s0)
      /\ serve (accepts ++ perm :: rest) s
         = Returned (Finished (after_permanent_error s0))
      /\ serve (accepts ++ perm :: rest) s = serve (accepts ++ [perm]) s
      /\ wg (after_permanent_error s0) = wg s0
      /\ sessions (after_permanent_error s0) = sessions s0.
Proof.
  intros accepts rest perm s Hperm Hp Hwg Hlen.
  destruct (serve_loop_no_permanent accepts Hperm 1 0 s Hwg)
    as (d' & s' & Hrun & _); [ lia | lia | ].
  eexists _, d', s'. unfold serve.
  rewrite !serve_loop_app, Hrun. cbn [bind serve_loop].
  rewrite (serve_iter_permanent _ _ _ _ Hp). cbn [bind].
  repeat split; unfold after_permanent_error; destruct (ctx_done s');
    reflexivity.
Qed.

Lemma serve_ends_at_first_permanent_error_witness :
  serve [Accepted 100; permanent_error; Accepted 101; temporary_error]
        (New make_chan false)
  = serve [Accepted 100; permanent_error] (New make_chan false).
Proof.
  destruct (serve_ends_at_first_permanent_error [Accepted 100]
              [Accepted 101; temporary_error] permanent_error
              (New make_chan false) eq_refl eq_refl)
    as (sid & d & s0 & _ & _ & Hsame & _).
  - cbn. lia.
  - cbn. lia.
  - exact Hsame.
Defined.

Lemma serve_loop_shutdown_channel (accepts : list AcceptResult) :
  forall (sid : Z) (d : Duration) (s : Server) (o : ServeOutcome),
    serve_loop accepts sid d s = Returned o ->
    ctx_done (outcome_server o) = ctx_done s
    /\ match o with
       | Accepting _ _ s' => globalShutdown s' = globalShutdown s
       | Finished s' =>
           if ctx_done s then globalShutdown s' = globalShutdown s
           else closed (globalShutdown s') = true
       end.
Proof.
  induction accepts as [ | r rest IH ]; intros sid d s o Hrun.
  - cbn in Hrun. injection Hrun as <-. split; reflexivity.
  - cbn [serve_loop] in Hrun.
    destruct (is_permanent r) eqn:Hr.
    + rewrite (serve_iter_permanent _ _ _ _ Hr) in Hrun. cbn in Hrun.
      injection Hrun as <-. unfold after_permanent_error. cbn.
      destruct (ctx_done s) eqn:Hc; split; try reflexivity; exact Hc.
    + destruct (not_permanent_cases r Hr) as [[conn ->] | Htemp].
      * cbn [serve_iter] in Hrun. unfold wg_Add in Hrun.
        destruct (wg s + 1 <? 0); [ discriminate Hrun | ].
        cbn [bind] in Hrun. apply IH in Hrun. exact Hrun.
      * rewrite (serve_iter_temporary _ _ _ _ Htemp) in Hrun.
        cbn [bind] in Hrun. apply IH in Hrun. exact Hrun.
Qed.

(** X7: [serve] touches the shutdown channel at one place only.  While it
    is accepting the channel is as it found it; once the context is
    cancelled it returns without touching the channel, whatever [Accept]
    reported; otherwise it has returned only with the channel closed. *)
Theorem serve_shutdown_channel :
  forall (accepts : list AcceptResult) (s : Server) (o : ServeOutcome),
    serve accepts s = Returned o ->
    ctx_done (outcome_server o) = ctx_done s
    /\ match o with
       | Accepting _ _ s' => globalShutdown s' = globalShutdown s
       | Finished s' =>
           if ctx_done s then globalShutdown s' = globalShutdown s
           else closed (globalShutdown s') = true
       end.
Proof.
  intros accepts s o Hrun. exact (serve_loop_shutdown_channel _ _ _ _ _ Hrun).
Qed.

Lemma serve_shutdown_channel_witness :
  serve [Accepted 100; permanent_error] (New make_chan true)
  = Returned (Finished (go_startSession 1 100
                          (set_wg 1 (New make_chan true))))
  /\ closed (globalShutdown (go_startSession 1 100
                               (set_wg 1 (New make_chan true)))) = false.
Proof.
  split; [ reflexivity | ].
  pose proof (serve_shutdown_channel [Accepted 100; permanent_error]
                (New make_chan true) _ eq_refl) as [_ H].
  exact (f_equal closed H).
Defined.

Lemma expected_delay_cap (n : nat) :
  (1 <= n)%nat -> (expected_delay n = Second <-> (9 <= n)%nat).
Proof.
  intros Hn. unfold expected_delay. rewrite Millisecond_value, Second_value.
  destruct (Nat.le_gt_cases 9 n) as [Hge | Hlt].
  - assert (2 ^ 8 <= 2 ^ (Z.of_nat n - 1)) by (apply Z.pow_le_mono_r; lia).
    change (2 ^ 8) with 256 in *. split; [ intros _; exact Hge | lia ].
  - assert (2 ^ (Z.of_nat n - 1) <= 2 ^ 7) by (apply Z.pow_le_mono_r; lia).
    change (2 ^ 7) with 128 in *. split; lia.
Qed.

(** X8: the delay is one second from the ninth temporary error in a row
    on, and shorter before. *)
Theorem backoff_capped_from_ninth_error :
  forall (errs : list AcceptResult) (s : Server),
    Forall (fun r => is_temporary r = true) errs ->
    exists o d,
      serve errs s = Returned o
      /\ outcome_delay o = Some d
      /\ (d = 1 * Second <-> (9 <= List.length errs)%nat)
      /\ ((List.length errs <= 8)%nat -> d < 1 * Second)
      /\ ((9 <= List.length errs)%nat ->
          last (slept (outcome_server o)) 0 = 1 * Second).
Proof.
  intros errs s Htemp.
  destruct (serve_loop_temporary errs Htemp 0%nat 1 s)
    as (o & Hrun & Hd & Hs & _).
  exists o, (delay_after (List.length errs)). unfold serve.
  cbn [delay_after] in Hrun. cbn [Nat.add] in Hd.
  split; [ exact Hrun | ]. split; [ exact Hd | ].
  change (1 * Second) with Second.
  destruct (List.length errs) as [ | n ] eqn:Hn.
  - cbn [delay_after]. rewrite Second_value.
    split; [ split; [ discriminate | lia ] | ]. split; [ lia | lia ].
  - cbn [delay_after].
    pose proof (expected_delay_cap (S n) ltac:(lia)) as Hcap.
    pose proof (expected_delay_bounds (S n) ltac:(lia)) as Hb.
    change (1 * Second) with Second in Hb.
    split; [ exact Hcap | ]. split.
    + intros Hle.
      assert (expected_delay (S n) <> Second) by (rewrite Hcap; lia). lia.
    + intros Hge. rewrite Hs.
      rewrite seq_S, map_app, app_assoc. cbn [map].
      rewrite last_last. apply Hcap. exact Hge.
Qed.

Lemma backoff_capped_from_ninth_error_witness :
  exists o,
    serve (repeat temporary_error 9) (New make_chan false) = Returned o
    /\ outcome_delay o = Some 1000000000.
Proof.
  destruct (backoff_capped_from_ninth_error (repeat temporary_error 9)
              (New make_chan false))
    as (o & d & Hrun & Hd & Hcap & _).
  - repeat constructor.
  - exists o. split; [ exact Hrun | ].
    rewrite Hd. f_equal. apply Hcap. cbn. lia.
Defined.

End AcceptsFacts.

(* ================================================================== *)
(** * Further properties of the daemon *)
(* ================================================================== *)

Module SchedulesFacts.
Import Go GoFacts Main MainFacts Schedules.

Section LoopFacts.

Context {IServer : Type}.

Local Abbreviation State := (Main.State IServer).
Local Abbreviation ServerTuple := (Main.ServerTuple IServer).
Local Abbreviation Effect := (Main.Effect IServer).

Lemma deliver_queue_ok (sig : Signal) (st : State) :
  queue_ok st -> queue_ok (deliver sig st).
Proof.
  unfold queue_ok, deliver. intros [Hlen Hall].
  destruct (notified sig) eqn:Hn; cbn [andb]; [ | now split ].
  destruct (Z.ltb_spec (Z.of_nat (List.length (sigChan st))) 1);
    [ | now split ].
  cbn [set_sigChan sigChan]. split.
  - rewrite length_app. cbn. lia.
  - apply Forall_app. split; [ exact Hall | ]. now constructor.
Qed.

Lemma signalLoop_queue_ok (events : list Event) :
  forall st : State,
    queue_ok st ->
    match signalLoop events st with
    | InLoop st' => queue_ok st'
    | LeftLoop st' => queue_ok st'
    | _ => True
    end.
Proof.
  induction events as [ | e rest IH ]; intros st Hq; cbn [signalLoop].
  - exact Hq.
  - destruct e as [sig | | c].
    + apply IH. now apply deliver_queue_ok.
    + unfold listener_emergency.
      rewrite Pop3Facts.emergencyShutdown_returns. cbn [bind].
      apply IH. exact Hq.
    + destruct c; cbn [signalLoop_turn].
      * destruct (sigChan st) as [ | sig queued ] eqn:Hsig; [ exact I | ].
        assert (Hq' : forall (tr : list Effect) c',
                   queue_ok (IServer := IServer)
                            {| shutdownChan := c'; sigChan := queued;
                               rootCancelled := rootCancelled st;
                               trace := tr |}).
        { intros tr c'. destruct Hq as [Hlen Hall]. rewrite Hsig in *.
          split; cbn [sigChan].
          - cbn in Hlen. lia.
          - now inversion Hall. }
        destruct sig; cbn; unfold close; cbn;
          destruct (closed (shutdownChan st)); cbn;
          try exact I; apply IH; try apply Hq'.
      * unfold recv_ready.
        destruct (closed (shutdownChan st)); [ | exact I ].
        exact Hq.
Qed.

(** X10: whatever signals are raised and whenever [main] looks, the signal
    channel holds at most one signal, and that one is [SIGINT] or
    [SIGTERM]: a signal raised while one is waiting is dropped, and the
    loop never receives a signal it has no case for. *)
Theorem signal_channel_holds_one_notified_signal :
  forall (events : list Event) (st' : State),
    signalLoop events initial = InLoop st'
    \/ signalLoop events initial = LeftLoop st' ->
    (List.length (sigChan st') <= 1)%nat
    /\ (forall sig, In sig (sigChan st') -> sig = SIGINT \/ sig = SIGTERM).
Proof.
  intros events st' Hrun.
  assert (Hq : queue_ok st').
  { pose proof (signalLoop_queue_ok events initial) as H.
    destruct Hrun as [Hrun | Hrun]; rewrite Hrun in H; apply H;
      (split; [ cbn; lia | constructor ]). }
  destruct Hq as [Hlen Hall]. split; [ exact Hlen | ].
  intros sig Hin. rewrite Forall_forall in Hall. specialize (Hall sig Hin).
  destruct sig; [ now left | now right | discriminate Hall ].
Qed.




Lemma signalLoop_cancels_once (events : list Event) :
  forall st : State,
    not_cancelled st ->
    match signalLoop events st with
    | InLoop st' => not_cancelled st'
    | LeftLoop st' =>
        rootCancelled st' = true
        /\ closed (shutdownChan st') = true
        /\ exists tr, trace st' = tr ++ [RootCancel] /\ ~ In RootCancel tr
    | _ => True
    end.
Proof.
  induction events as [ | e rest IH ]; intros st Hn; cbn [signalLoop].
  - exact Hn.
  - destruct e as [sig | | c].
    + apply IH. unfold deliver.
      destruct (notified sig && _); exact Hn.
    + unfold listener_emergency.
      rewrite Pop3Facts.emergencyShutdown_returns. cbn [bind].
      apply IH. exact Hn.
    + destruct c; cbn [signalLoop_turn].
      * destruct (sigChan st) as [ | sig queued ]; [ exact I | ].
        destruct Hn as [Hr Ht].
        destruct sig; cbn; unfold close; cbn;
          destruct (closed (shutdownChan st)); cbn;
          try exact I; apply IH; split; cbn; try exact Hr; try exact Ht;
          rewrite in_app_iff; intros [H | [H | []]];
          try discriminate H; now apply Ht.
      * unfold recv_ready.
        destruct (closed (shutdownChan st)) eqn:Hc; [ | exact I ].
        cbn. split; [ reflexivity | ]. split; [ exact Hc | ].
        exists (trace st). split; [ reflexivity | apply Hn ].
Qed.

(** X12: the root context is cancelled on the way out of the loop and
    nowhere else: while [main] is in the loop the context is live; when it
    has left, the shutdown channel is closed and [rootCancel] has been
    called exactly once, as the last thing done. *)
Theorem root_context_cancelled_on_exit :
  forall (events : list Event) (st' : State),
    (signalLoop events initial = InLoop st' ->
       rootCancelled st' = false /\ ~ In RootCancel (trace st'))
    /\ (signalLoop events initial = LeftLoop st' ->
       rootCancelled st' = true
       /\ closed (shutdownChan st') = true
       /\ exists tr, trace st' = tr ++ [RootCancel] /\ ~ In RootCancel tr).
Proof.
  intros events st'.
  pose proof (signalLoop_cancels_once events initial) as H.
  split; intros Hrun; rewrite Hrun in H; apply H; split;
    try reflexivity; intros [].
Qed.

(** ** The watchdog and the clock *)

Variable drain_time : IServer -> option Duration.
Variable join_time : option Duration.

Lemma drain_calls_plain (t : ServerTuple) :
  forallb plain (drain_calls t) = true.
Proof. destruct t as [[a | ] [b | ]]; reflexivity. Qed.

Lemma removePIDFile_plain (pidfile : string) :
  forallb plain (removePIDFile (IServer := IServer) pidfile) = true.
Proof. unfold removePIDFile. destruct (negb _); reflexivity. Qed.

Lemma shutdown_effects_plain (pidfile : string) (smtp pop3 : ServerTuple) :
  forallb plain (drain_calls smtp ++ drain_calls pop3 ++ [JoinScanner]
                 ++ removePIDFile pidfile ++ [CloseLog]) = true.
Proof.
  rewrite !forallb_app, !drain_calls_plain, removePIDFile_plain. reflexivity.
Qed.

Lemma goroutine_end_plain (e : Effect) (rest : list Effect) (t : Z) :
  plain e = true ->
  goroutine_end drain_time join_time (e :: rest) t
  = match duration_of drain_time join_time e with
    | Some d => goroutine_end drain_time join_time rest (t + d)
    | None => NeverEnds
    end.
Proof. destruct e; intros H; try discriminate H; reflexivity. Qed.

Lemma process_end_plain (e : Effect) (rest : list Effect) (t tw code : Z) :
  plain e = true ->
  process_end drain_time join_time (e :: rest) t (Some (tw, code))
  = match duration_of drain_time join_time e with
    | Some d =>
        if tw <? t + d then ExitsAt tw code
        else process_end drain_time join_time rest (t + d) (Some (tw, code))
    | None => ExitsAt tw code
    end.
Proof. destruct e; intros H; try discriminate H; reflexivity. Qed.

(** With an exit armed for [tw], [main] either returns by then or the
    process exits at [tw]. *)
Lemma process_end_armed (acts : list Effect) :
  forallb plain acts = true ->
  forall (t tw code : Z),
    t <= tw ->
    (exists t', process_end drain_time join_time acts t (Some (tw, code))
                = ReturnsAt t' /\ t' <= tw)
    \/ process_end drain_time join_time acts t (Some (tw, code))
       = ExitsAt tw code.
Proof.
  induction acts as [ | e rest IH ]; intros Hplain t tw code Ht.
  - left. exists t. now split.
  - cbn [forallb] in Hplain. apply andb_true_iff in Hplain as [He Hrest].
    rewrite (process_end_plain _ _ _ _ _ He).
    destruct (duration_of drain_time join_time e) as [d | ]; [ | now right ].
    destruct (Z.ltb_spec tw (t + d)); [ now right | now apply IH ].
Qed.

Hypothesis drain_time_nonneg :
  forall server d, drain_time server = Some d -> 0 <= d.
Hypothesis join_time_nonneg : forall d, join_time = Some d -> 0 <= d.

Lemma duration_of_plain_nonneg (e : Effect) (d : Duration) :
  plain e = true -> duration_of drain_time join_time e = Some d -> 0 <= d.
Proof.
  destruct e; intros He; try discriminate He; cbn [duration_of]; intros Hd;
    try (injection Hd as <-; lia).
  - now apply drain_time_nonneg in Hd.
  - now apply join_time_nonneg in Hd.
Qed.

Lemma goroutine_end_later (acts : list Effect) :
  forallb plain acts = true ->
  forall t t', goroutine_end drain_time join_time acts t = ReturnsAt t' ->
               t <= t'.
Proof.
  induction acts as [ | e rest IH ]; intros Hplain t t' Hend.
  - cbn in Hend. injection Hend as <-. lia.
  - cbn [forallb] in Hplain. apply andb_true_iff in Hplain as [He Hrest].
    rewrite (goroutine_end_plain _ _ _ He) in Hend.
    destruct (duration_of drain_time join_time e) as [d | ] eqn:Hd;
      [ | discriminate Hend ].
    apply (IH Hrest) in Hend.
    pose proof (duration_of_plain_nonneg e d He Hd). lia.
Qed.

Lemma process_end_in_time (acts : list Effect) :
  forallb plain acts = true ->
  forall (t t' tw code : Z),
    goroutine_end drain_time join_time acts t = ReturnsAt t' ->
    t' <= tw ->
    process_end drain_time join_time acts t (Some (tw, code)) = ReturnsAt t'.
Proof.
  induction acts as [ | e rest IH ]; intros Hplain t t' tw code Hend Ht.
  - cbn in *. exact Hend.
  - cbn [forallb] in Hplain. apply andb_true_iff in Hplain as [He Hrest].
    rewrite (goroutine_end_plain _ _ _ He) in Hend.
    rewrite (process_end_plain _ _ _ _ _ He).
    destruct (duration_of drain_time join_time e) as [d | ];
      [ | discriminate Hend ].
    pose proof (goroutine_end_later rest Hrest _ _ Hend).
    destruct (Z.ltb_spec tw (t + d)); [ lia | now apply IH ].
Qed.

End LoopFacts.

Section ClockFacts.

Context {IServer : Type}.
Variable drain_time : IServer -> option Duration.
Variable join_time : option Duration.

Local Abbreviation State := (Main.State IServer).
Local Abbreviation ServerTuple := (Main.ServerTuple IServer).

Lemma shutdown_effects (pidfile : string) (smtp pop3 : ServerTuple)
      (st st' : State) :
  shutdown_sequence pidfile smtp pop3 st = Returned st' ->
  effects_since st st'
  = GoTimedExit pidfile
    :: (drain_calls smtp ++ drain_calls pop3 ++ [JoinScanner]
        ++ removePIDFile pidfile ++ [CloseLog]).
Proof.
  intros Hrun.
  assert (Hst : st' = emit_all ([GoTimedExit pidfile] ++ drain_calls smtp
                                ++ drain_calls pop3 ++ [JoinScanner]
                                ++ removePIDFile pidfile ++ [CloseLog]) st).
  { rewrite shutdown_sequence_returns in Hrun. congruence. }
  rewrite Hst, effects_since_app. reflexivity.
Qed.

(** X14: once [main] has left its loop the process ends within 15 seconds,
    however long the listeners and the retention scanner take and even if
    one of them never finishes: either [main] returns by then, or the
    watchdog exits with status 0 at exactly 15 seconds. *)
Theorem shutdown_ends_within_15_seconds :
  forall (pidfile : string) (smtp pop3 : ServerTuple) (st st' : State) (t0 : Z),
    shutdown_sequence pidfile smtp pop3 st = Returned st' ->
    (exists t,
       process_end drain_time join_time (effects_since st st') t0 None
       = ReturnsAt t
       /\ t <= t0 + 15 * Second)
    \/ process_end drain_time join_time (effects_since st st') t0 None
       = ExitsAt (t0 + 15 * Second) 0.
Proof.
  intros pidfile smtp pop3 st st' t0 Hrun.
  rewrite (shutdown_effects _ _ _ _ _ Hrun).
  cbn [process_end]. rewrite timedExit_end.
  apply process_end_armed.
  - apply shutdown_effects_plain.
  - rewrite Second_value. lia.
Qed.

(** X15: when the listeners and the scanner are through within 15 seconds
    of the loop being left (no call taking a negative time), the watchdog
    never acts: the process ends by [main] returning, at the moment the
    last of them is through. *)
Theorem shutdown_in_time_returns :
  forall (pidfile : string) (smtp pop3 : ServerTuple) (st st' : State) (t0 t : Z),
    (forall server d, drain_time server = Some d -> 0 <= d) ->
    (forall d, join_time = Some d -> 0 <= d) ->
    shutdown_sequence pidfile smtp pop3 st = Returned st' ->
    goroutine_end drain_time join_time (effects_since st st') t0 = ReturnsAt t ->
    t <= t0 + 15 * Second ->
    process_end drain_time join_time (effects_since st st') t0 None
    = ReturnsAt t
    /\ t0 <= t.
Proof.
  intros pidfile smtp pop3 st st' t0 t Hdrain Hjoin Hrun Hend Ht.
  rewrite (shutdown_effects _ _ _ _ _ Hrun) in *.
  cbn [goroutine_end duration_of] in Hend. rewrite Z.add_0_r in Hend.
  cbn [process_end]. rewrite timedExit_end. split.
  - apply (process_end_in_time drain_time join_time Hdrain Hjoin).
    + apply shutdown_effects_plain.
    + exact Hend.
    + exact Ht.
  - apply (goroutine_end_later drain_time join_time Hdrain Hjoin _
             (shutdown_effects_plain pidfile smtp pop3) _ _ Hend).
Qed.

End ClockFacts.

Lemma signal_channel_holds_one_notified_signal_witness :
  signalLoop (IServer := string)
    [Raise SIGHUP; Raise SIGTERM; Raise SIGINT; Raise SIGINT] initial
  = InLoop {| shutdownChan := make_chan; sigChan := [SIGTERM];
              rootCancelled := false; trace := [] |}
  /\ (List.length [SIGTERM] <= 1)%nat.
Proof.
  split; [ reflexivity | ].
  exact (proj1 (signal_channel_holds_one_notified_signal (IServer := string)
                  [Raise SIGHUP; Raise SIGTERM; Raise SIGINT; Raise SIGINT]
                  _ (or_introl eq_refl))).
Defined.



Lemma shutdown_ends_within_15_seconds_witness :
  exists st',
    shutdown_sequence "" sample_smtp sample_pop3 initial = Returned st'
    /\ process_end sample_drain_time sample_join_time
                   (effects_since initial st') 0 None
       = ExitsAt 15000000000 0.
Proof.
  eexists. split; [ reflexivity | ].
  destruct (shutdown_ends_within_15_seconds sample_drain_time sample_join_time
              "" sample_smtp sample_pop3 initial _ 0 eq_refl)
    as [(t & Hret & _) | Hexit].
  - discriminate Hret.
  - exact Hexit.
Defined.

Lemma shutdown_in_time_returns_witness :
  exists st',
    shutdown_sequence "" sample_smtp sample_smtp initial = Returned st'
    /\ process_end sample_drain_time sample_join_time
                   (effects_since initial st') 0 None
       = ReturnsAt 4000000000.
Proof.
  eexists. split; [ reflexivity | ].
  refine (proj1 (shutdown_in_time_returns sample_drain_time sample_join_time
                   "" sample_smtp sample_smtp initial _ 0 4000000000
                   _ _ eq_refl eq_refl _)).
  - intros server d. unfold sample_drain_time.
    destruct (String.eqb server "pop3/tcp6"); intros H;
      [ discriminate H | injection H as <-; cbv; discriminate ].
  - intros d H. injection H as <-. lia.
  - rewrite Second_value. lia.
Defined.

End SchedulesFacts.

(* ================================================================== *)
(** * Properties of [openLog] *)
(* ================================================================== *)

Module LoggingFacts.
Import Go Logging.

Section OpenLogFacts.

Variable GOOS : string.
Variable OpenFile : string -> option error.

Lemma is_std_cases (logfile : string) :
  (String.eqb logfile "stderr" = true /\ is_std logfile = true)
  \/ (String.eqb logfile "stderr" = false
      /\ String.eqb logfile "stdout" = true /\ is_std logfile = true)
  \/ (String.eqb logfile "stderr" = false
      /\ String.eqb logfile "stdout" = false /\ is_std logfile = false).
Proof.
  unfold is_std.
  destruct (String.eqb logfile "stderr"), (String.eqb logfile "stdout"); auto.
Qed.

(** X16: [openLog] fails in two ways only.  A level other than [debug],
    [info], [warn] and [error] is refused before anything is touched.  A
    log file that cannot be opened is reported with the error of
    [os.OpenFile], and by then the global level has been changed, while
    the logger is the old one.  In no other case does [openLog] fail. *)
Theorem openLog_failures :
  forall (level logfile : string) (json setColor : bool) (st : LogState),
    match openLog GOOS OpenFile level logfile json setColor st with
    | (st', inr (BadLevel lv)) =>
        level_of level = None /\ lv = level /\ st' = st
    | (st', inr (OpenFileError err)) =>
        is_std logfile = false
        /\ OpenFile logfile = Some err
        /\ (exists l, level_of level = Some l /\ st' = SetGlobalLevel l st)
        /\ logger st' = logger st
        /\ opened st' = opened st
    | (st', inl _) =>
        level_of level <> None
        /\ (is_std logfile = true \/ OpenFile logfile = None)
    end.
Proof.
  intros level logfile json setColor st. unfold openLog.
  destruct (level_of level) as [l | ]; [ | repeat split ].
  destruct (is_std_cases logfile) as [[-> Hstd] | [(-> & -> & Hstd) | (-> & -> & Hstd)]].
  - destruct json; cbn; (split; [ discriminate | now left ]).
  - destruct json; cbn; (split; [ discriminate | now left ]).
  - destruct (OpenFile logfile) as [err | ] eqn:Hopen.
    + cbn. repeat split; try assumption. now exists l.
    + destruct json; cbn; (split; [ discriminate | now right ]).
Qed.

(** X17: when [openLog] succeeds the global level is the one asked for;
    the logger writes to standard error, to standard output or, through a
    buffer, to the log file, which is then the one file opened; it writes
    JSON exactly when asked to; it uses colour only on a console format,
    on a standard stream, off Windows and when asked to; and the function
    it returns flushes and closes the log file, or does nothing for a
    standard stream. *)
Theorem openLog_success :
  forall (level logfile : string) (json setColor : bool)
         (st st' : LogState) (close : CloseFunc),
    openLog GOOS OpenFile level logfile json setColor st = (st', inl close) ->
    level_of level = Some (globalLevel st')
    /\ logger_writer (logger st') = writer_of logfile
    /\ ((exists w, logger st' = JSONOutput w) <-> json = true)
    /\ coloured (logger st')
       = negb json && setColor && negb (String.eqb GOOS "windows")
         && is_std logfile
    /\ close = (if is_std logfile then CloseNothing else FlushAndClose logfile)
    /\ opened st'
       = (if is_std logfile then opened st else logfile :: opened st).
Proof.
  intros level logfile json setColor st st' close. unfold openLog, writer_of.
  destruct (level_of level) as [l | ]; [ | discriminate ].
  destruct (is_std_cases logfile)
    as [[-> Hstd] | [(-> & -> & Hstd) | (-> & -> & Hstd)]]; rewrite Hstd;
    try (destruct (OpenFile logfile) as [err | ]; [ discriminate | ]);
    destruct json; cbn; intros H; injection H as <- <-; cbn;
    rewrite ?negb_involutive, ?andb_true_r, ?andb_false_r;
    repeat split; try reflexivity;
    try (intros _; eexists; reflexivity);
    try (intros [w Hw]; discriminate Hw);
    try discriminate.
Qed.

End OpenLogFacts.

Lemma openLog_success_witness :
  exists st',
    openLog "linux" sample_OpenFile "warn" "/var/log/inbucket.log" false true
            default_log
    = (st', inl (FlushAndClose "/var/log/inbucket.log"))
    /\ globalLevel st' = WarnLevel
    /\ coloured (logger st') = false
    /\ opened st' = ["/var/log/inbucket.log"].
Proof.
  eexists. split; [ reflexivity | ].
  destruct (openLog_success "linux" sample_OpenFile "warn"
              "/var/log/inbucket.log" false true default_log _ _ eq_refl)
    as (Hl & _ & _ & Hc & _ & Ho).
  split; [ reflexivity | ]. split; [ exact Hc | exact Ho ].
Defined.

End LoggingFacts.

(* ================================================================== *)
(** * Properties of the start of [main] *)
(* ================================================================== *)

Module StartupFacts.
Import Go Main MainFacts Logging Startup.

Lemma started_app (a b : list Action) :
  started (a ++ b) = started a ++ started b.
Proof.
  induction a as [ | x a IH ]; [ reflexivity | ].
  destruct x; cbn; rewrite ?IH; reflexivity.
Qed.

Lemma drained_app (a b : list (Effect Server)) :
  drained (a ++ b) = drained a ++ drained b.
Proof.
  induction a as [ | x a IH ]; [ reflexivity | ].
  destruct x; cbn; rewrite ?IH; reflexivity.
Qed.

Lemma drained_drain_calls (t : ServerTuple Server) :
  drained (drain_calls t) = members t.
Proof. destruct t as [[a | ] [b | ]]; reflexivity. Qed.

Lemma drained_removePIDFile (path : string) :
  drained (removePIDFile path) = [].
Proof. unfold removePIDFile. destruct (negb _); reflexivity. Qed.

Lemma start_pop3_started (conf : Config) :
  started (fst (start_pop3 conf)) = members (snd (start_pop3 conf)).
Proof.
  unfold start_pop3. destruct (Enabled (POP3 conf)); [ | reflexivity ].
  destruct (negb (String.eqb (Addr (POP3 conf)) ""));
    destruct (negb (String.eqb (Addrv6 (POP3 conf)) "")); reflexivity.
Qed.

Lemma start_smtp_started (conf : Config) :
  started (fst (start_smtp conf)) = members (snd (start_smtp conf)).
Proof.
  unfold start_smtp. destruct (Enabled (SMTP conf)); [ | reflexivity ].
  destruct (negb (String.eqb (Addr (SMTP conf)) ""));
    destruct (negb (String.eqb (Addrv6 (SMTP conf)) "")); reflexivity.
Qed.

Lemma write_pidfile_starts_nothing (w : World) (path : string) :
  forallb (fun a => negb (starts_something a)) (fst (write_pidfile w path)) = true.
Proof.
  unfold write_pidfile. destruct (negb (String.eqb path "")); [ | reflexivity ].
  destruct (os_Create w path); [ reflexivity | ].
  destruct (pidf_Close w); reflexivity.
Qed.

Lemma nothing_started (acts : list Action) :
  forallb (fun a => negb (starts_something a)) acts = true -> started acts = [].
Proof.
  induction acts as [ | a acts IH ]; [ reflexivity | ].
  cbn [forallb]. intros H. apply andb_true_iff in H as [Ha Hacts].
  destruct a; try discriminate Ha; cbn; now apply IH.
Qed.

(** What [main] has done when it enters its loop. *)
Lemma startup_enters_loop (f : Flags) (w : World) (log log' : LogState)
      (acts : list Action) (closeLog : CloseFunc)
      (smtp pop3 : ServerTuple Server) :
  startup f w log = (log', EntersLoop acts closeLog smtp pop3) ->
  exists conf0 pid_acts,
    config_Process w = inl conf0
    /\ help f = false
    /\ write_pidfile w (pidfile f) = (pid_acts, true)
    /\ storage_FromConfig w = None
    /\ let conf := if netdebug f then set_netdebug conf0 else conf0 in
       openLog (GOOS w) (OpenFile w) (LogLevel conf) (logfile f) (logjson f)
               false log = (log', inl closeLog)
       /\ pop3 = snd (start_pop3 conf)
       /\ smtp = snd (start_smtp conf)
       /\ acts = [SignalNotify; LogStarting] ++ pid_acts ++ [StartScanner]
                 ++ (if Web_Enabled conf then [GoWebStart] else [])
                 ++ fst (start_pop3 conf) ++ fst (start_smtp conf).
Proof.
  unfold startup. destruct (help f); [ discriminate | ].
  destruct (config_Process w) as [conf0 | err]; [ | discriminate ].
  set (conf := if netdebug f then set_netdebug conf0 else conf0).
  destruct (openLog (GOOS w) (OpenFile w) (LogLevel conf) (logfile f)
                    (logjson f) false log) as [log1 [close1 | err]] eqn:Hlog;
    [ | discriminate ].
  destruct (write_pidfile w (pidfile f)) as [pid_acts ok].
  destruct ok; cbn [negb]; [ | discriminate ].
  destruct (storage_FromConfig w); [ discriminate | ].
  destruct (start_pop3 conf) as [pop3_acts pop3_tuple] eqn:Hpop3.
  destruct (start_smtp conf) as [smtp_acts smtp_tuple] eqn:Hsmtp.
  intros H. injection H as <- <- <- <- <-.
  exists conf0, pid_acts. fold conf. rewrite Hpop3, Hsmtp. cbn [fst snd].
  repeat split; try exact Hlog.
  destruct (Web_Enabled conf); cbn; rewrite <- ?app_assoc; reflexivity.
Qed.

Lemma members_pop3_NoDup (conf : Config) :
  NoDup (members (snd (start_pop3 conf)) ++ members (snd (start_smtp conf))).
Proof.
  unfold start_pop3, start_smtp, members.
  destruct (Enabled (POP3 conf)), (Enabled (SMTP conf));
    destruct (negb (String.eqb (Addr (POP3 conf)) ""));
    destruct (negb (String.eqb (Addrv6 (POP3 conf)) ""));
    destruct (negb (String.eqb (Addr (SMTP conf)) ""));
    destruct (negb (String.eqb (Addrv6 (SMTP conf)) ""));
    cbn;
    repeat (constructor; [ cbn; intuition discriminate | ]);
    constructor.
Qed.

Lemma members_smtp_NoDup (conf : Config) :
  NoDup (members (snd (start_smtp conf)) ++ members (snd (start_pop3 conf))).
Proof.
  unfold start_pop3, start_smtp, members.
  destruct (Enabled (POP3 conf)), (Enabled (SMTP conf));
    destruct (negb (String.eqb (Addr (POP3 conf)) ""));
    destruct (negb (String.eqb (Addrv6 (POP3 conf)) ""));
    destruct (negb (String.eqb (Addr (SMTP conf)) ""));
    destruct (negb (String.eqb (Addrv6 (SMTP conf)) ""));
    cbn;
    repeat (constructor; [ cbn; intuition discriminate | ]);
    constructor.
Qed.

Lemma signalLoop_drains_nothing (events : list Event) :
  forall st : State Server,
    drained (trace st) = [] ->
    match signalLoop events st with
    | InLoop st' => drained (trace st') = []
    | LeftLoop st' => drained (trace st') = []
    | _ => True
    end.
Proof.
  induction events as [ | e rest IH ]; intros st Hst; cbn [signalLoop].
  - exact Hst.
  - destruct e as [sig | | c].
    + apply IH. unfold deliver. destruct (notified sig && _); exact Hst.
    + unfold listener_emergency.
      rewrite Pop3Facts.emergencyShutdown_returns. cbn [bind].
      apply IH. exact Hst.
    + destruct c; cbn [signalLoop_turn].
      * destruct (sigChan st) as [ | sig queued ]; [ exact I | ].
        destruct sig; cbn; unfold close; cbn;
          destruct (closed (shutdownChan st)); cbn;
          try exact I; apply IH; cbn; rewrite ?drained_app, ?Hst;
          try reflexivity; exact Hst.
      * unfold recv_ready.
        destruct (closed (shutdownChan st)); [ | exact I ].
        cbn. rewrite drained_app, Hst. reflexivity.
Qed.

(** X18: the listeners [main] starts and the listeners it drains are the
    same.  When [main] enters its loop it has started the POP3 servers and
    then the SMTP servers of the two tuples, all different; and whenever
    [main] then returns, whatever the signals and the schedule, it has
    called [Drain] exactly once on each of them, SMTP first, and on nothing
    else. *)
Theorem every_started_listener_is_drained :
  forall (f : Flags) (w : World) (log log' : LogState) (acts : list Action)
         (closeLog : CloseFunc) (smtp pop3 : ServerTuple Server)
         (events : list Event) (st : State Server),
    startup f w log = (log', EntersLoop acts closeLog smtp pop3) ->
    main_from_loop events (pidfile f) smtp pop3 = MainReturned st ->
    started acts = members pop3 ++ members smtp
    /\ drained (trace st) = members smtp ++ members pop3
    /\ NoDup (started acts)
    /\ NoDup (drained (trace st))
    /\ (forall server, In server (started acts) <-> In server (drained (trace st)))
    /\ (List.length (started acts) <= 4)%nat.
Proof.
  intros f w log log' acts closeLog smtp pop3 events st Hstart Hmain.
  destruct (startup_enters_loop _ _ _ _ _ _ _ _ Hstart)
    as (conf0 & pid_acts & _ & _ & Hpid & _ & Hrest).
  cbv zeta in Hrest. destruct Hrest as (_ & -> & -> & ->).
  set (conf := if netdebug f then set_netdebug conf0 else conf0) in *.
  assert (Hstarted :
            started ([SignalNotify; LogStarting] ++ pid_acts ++ [StartScanner]
                     ++ (if Web_Enabled conf then [GoWebStart] else [])
                     ++ fst (start_pop3 conf) ++ fst (start_smtp conf))
            = members (snd (start_pop3 conf)) ++ members (snd (start_smtp conf))).
  { rewrite !started_app, start_pop3_started, start_smtp_started.
    pose proof (write_pidfile_starts_nothing w (pidfile f)) as Hn.
    rewrite Hpid in Hn. cbn [fst] in Hn. rewrite (nothing_started _ Hn).
    destruct (Web_Enabled conf); reflexivity. }
  assert (Hdrained :
            drained (trace st)
            = members (snd (start_smtp conf)) ++ members (snd (start_pop3 conf))).
  { unfold main_from_loop in Hmain.
    pose proof (signalLoop_drains_nothing events initial eq_refl) as Hloop.
    destruct (signalLoop events initial) as [st0 | st0 | msg | ];
      try discriminate Hmain.
    rewrite shutdown_sequence_returns, emit_all_state in Hmain.
    injection Hmain as <-. cbn [trace].
    rewrite drained_app, Hloop. cbn [app drained].
    rewrite !drained_app, !drained_drain_calls. cbn [app drained].
    rewrite drained_app, drained_removePIDFile.
    cbn. now rewrite app_nil_r. }
  pose proof (members_pop3_NoDup conf) as Hnd.
  rewrite Hstarted, Hdrained.
  split; [ reflexivity | ]. split; [ reflexivity | ].
  split; [ exact Hnd | ].
  split.
  { apply members_smtp_NoDup. }
  split.
  { intros server. rewrite !in_app_iff. tauto. }
  rewrite length_app. unfold members.
  destruct (v4 (snd (start_pop3 conf))), (v6 (snd (start_pop3 conf))),
    (v4 (snd (start_smtp conf))), (v6 (snd (start_smtp conf))); cbn; lia.
Qed.

Lemma every_started_listener_is_drained_witness :
  exists log' acts closeLog st,
    startup sample_flags sample_world default_log
    = (log', EntersLoop acts closeLog
               {| v4 := Some (SMTPServer (set_Debug (SMTP sample_config)) "tcp4");
                  v6 := None |}
               {| v4 := Some (POP3Server (set_Debug (POP3 sample_config))
                                         "0.0.0.0:1100" "tcp4");
                  v6 := Some (POP3Server (set_Debug (POP3 sample_config))
                                         "[::]:1100" "tcp6") |})
    /\ main_from_loop [Raise SIGINT; Select CaseSignal; Select CaseShutdown]
                      "/run/inbucket.pid"
                      {| v4 := Some (SMTPServer (set_Debug (SMTP sample_config)) "tcp4");
                         v6 := None |}
                      {| v4 := Some (POP3Server (set_Debug (POP3 sample_config))
                                                "0.0.0.0:1100" "tcp4");
                         v6 := Some (POP3Server (set_Debug (POP3 sample_config))
                                                "[::]:1100" "tcp6") |}
       = MainReturned st
    /\ List.length (started acts) = 3%nat
    /\ NoDup (drained (trace st)).
Proof.
  do 4 eexists.
  split; [ reflexivity | ]. split; [ reflexivity | ].
  split; [ reflexivity | ].
  exact (proj1 (proj2 (proj2 (proj2
           (every_started_listener_is_drained sample_flags sample_world
              default_log _ _ _ _ _
              [Raise SIGINT; Select CaseSignal; Select CaseShutdown] _
              eq_refl eq_refl))))).
Defined.

Lemma nonempty_iff (a : string) : negb (String.eqb a "") = true <-> a <> "".
Proof.
  rewrite negb_true_iff. split.
  - intros H. now apply String.eqb_neq.
  - intros H. now apply String.eqb_neq.
Qed.

(** X19: a tuple has a member exactly for an enabled protocol and an
    address that is not empty, so that a protocol that is disabled, or has
    no address at all, has no listener and nothing to drain; and with
    [-netdebug] every server is made with [Debug] set, whatever the
    configuration says. *)
Theorem tuples_follow_configuration :
  forall (f : Flags) (w : World) (log log' : LogState) (acts : list Action)
         (closeLog : CloseFunc) (smtp pop3 : ServerTuple Server) (conf : Config),
    config_Process w = inl conf ->
    startup f w log = (log', EntersLoop acts closeLog smtp pop3) ->
    (v4 pop3 <> None <-> Enabled (POP3 conf) = true /\ Addr (POP3 conf) <> "")
    /\ (v6 pop3 <> None <-> Enabled (POP3 conf) = true /\ Addrv6 (POP3 conf) <> "")
    /\ (v4 smtp <> None <-> Enabled (SMTP conf) = true /\ Addr (SMTP conf) <> "")
    /\ (v6 smtp <> None <-> Enabled (SMTP conf) = true /\ Addrv6 (SMTP conf) <> "")
    /\ (forall server,
          In server (started acts) ->
          Debug (server_config server)
          = netdebug f || (match server with
                           | POP3Server _ _ _ => Debug (POP3 conf)
                           | SMTPServer _ _ => Debug (SMTP conf)
                           end))
    /\ (Enabled (POP3 conf) = false -> Enabled (SMTP conf) = false ->
        started acts = [] /\ drain_calls smtp ++ drain_calls pop3 = []).
Proof.
  intros f w log log' acts closeLog smtp pop3 conf Hconf Hstart.
  assert (Hstarted : started acts = members pop3 ++ members smtp).
  { destruct (startup_enters_loop _ _ _ _ _ _ _ _ Hstart)
      as (conf0 & pid_acts & _ & _ & Hpid & _ & Hrest).
    cbv zeta in Hrest. destruct Hrest as (_ & -> & -> & ->).
    rewrite !started_app, start_pop3_started, start_smtp_started.
    pose proof (write_pidfile_starts_nothing w (pidfile f)) as Hn.
    rewrite Hpid in Hn. cbn [fst] in Hn. rewrite (nothing_started _ Hn).
    destruct (Web_Enabled _); reflexivity. }
  rewrite Hstarted. clear Hstarted.
  destruct (startup_enters_loop _ _ _ _ _ _ _ _ Hstart)
    as (conf0 & pid_acts & Hconf0 & _ & _ & _ & Hrest).
  rewrite Hconf in Hconf0. injection Hconf0 as <-.
  cbv zeta in Hrest. destruct Hrest as (_ & -> & -> & _).
  pose proof (nonempty_iff (Addr (POP3 conf))) as H1.
  pose proof (nonempty_iff (Addrv6 (POP3 conf))) as H2.
  pose proof (nonempty_iff (Addr (SMTP conf))) as H3.
  pose proof (nonempty_iff (Addrv6 (SMTP conf))) as H4.
  unfold start_pop3, start_smtp, members.
  destruct (netdebug f); cbn [set_netdebug set_Debug POP3 SMTP Enabled Addr Addrv6];
    destruct (Enabled (POP3 conf)), (Enabled (SMTP conf));
    destruct (negb (String.eqb (Addr (POP3 conf)) ""));
    destruct (negb (String.eqb (Addrv6 (POP3 conf)) ""));
    destruct (negb (String.eqb (Addr (SMTP conf)) ""));
    destruct (negb (String.eqb (Addrv6 (SMTP conf)) ""));
    cbn;
    (repeat split;
     try (intros; discriminate);
     try tauto;
     try (intros H; exfalso; tauto);
     try (intros [H _]; discriminate H);
     try (intros [_ H]; exfalso; tauto);
     try (intros [_ H];
          first [ apply H1 in H | apply H2 in H | apply H3 in H | apply H4 in H ];
          discriminate H);
     try (intros server Hin;
          repeat (destruct Hin as [<- | Hin]; [ reflexivity | ]);
          contradiction)).
Qed.

Lemma tuples_follow_configuration_witness :
  exists log' acts closeLog smtp pop3,
    startup sample_flags sample_world default_log
    = (log', EntersLoop acts closeLog smtp pop3)
    /\ v6 smtp = None
    /\ v6 pop3 <> None.
Proof.
  do 5 eexists. split; [ reflexivity | ].
  split; [ reflexivity | ].
  apply (proj1 (proj2 (tuples_follow_configuration sample_flags sample_world
                         default_log _ _ _ _ _ sample_config eq_refl eq_refl))).
  split; [ reflexivity | discriminate ].
Defined.

(** X20: when [main] ends before its loop with an exit, the status is 1 and
    neither the retention scanner nor the web server nor any listener has
    been started.  If the pidfile had been written by then, it is removed
    exactly when its [Close] had succeeded, that is when the failure is the
    one of the storage: a pidfile that cannot be closed is left behind. *)
Theorem startup_failure_starts_nothing :
  forall (f : Flags) (w : World) (log log' : LogState) (code : Z)
         (acts : list Action),
    startup f w log = (log', Exits code acts) ->
    code = 1
    /\ forallb (fun a => negb (starts_something a)) acts = true
    /\ started acts = []
    /\ (In (WritePid (pidfile f)) acts ->
        (In (Shutdown (OsRemove (pidfile f))) acts <-> pidf_Close w = None)).
Proof.
  intros f w log log' code acts. unfold startup.
  destruct (help f); [ discriminate | ].
  destruct (config_Process w) as [conf0 | err].
  2:{ intros Hx. injection Hx as _ <- <-. cbn.
      repeat split; intros; intuition (discriminate || auto). }
  destruct (openLog _ _ _ _ _ _ _) as [log1 [close1 | err]].
  2:{ intros Hx. injection Hx as _ <- <-. cbn.
      repeat split; intros; intuition (discriminate || auto). }
  unfold write_pidfile, removePIDFile.
  destruct (negb (String.eqb (pidfile f) "")) eqn:Hp.
  - destruct (os_Create w (pidfile f)) as [e | ].
    + cbn. intros Hx. injection Hx as _ <- <-. cbn.
      repeat split; intros; intuition (discriminate || auto).
    + destruct (pidf_Close w) as [e | ].
      * cbn. intros Hx. injection Hx as _ <- <-. cbn.
        repeat split; intros; intuition (discriminate || auto).
      * cbn [negb]. destruct (storage_FromConfig w) as [e | ].
        -- intros Hx. injection Hx as _ <- <-. cbn.
           repeat split; intros; intuition (discriminate || auto).
        -- destruct (start_pop3 _), (start_smtp _). discriminate.
  - cbn [negb]. destruct (storage_FromConfig w) as [e | ].
    + intros Hx. injection Hx as _ <- <-. cbn.
      repeat split; intros; intuition (discriminate || auto).
    + destruct (start_pop3 _), (start_smtp _). discriminate.
Qed.

Lemma startup_failure_starts_nothing_witness :
  exists log' acts,
    startup sample_flags failing_storage_world default_log
    = (log', Exits 1 acts)
    /\ started acts = []
    /\ In (Shutdown (OsRemove "/run/inbucket.pid")) acts.
Proof.
  do 2 eexists. split; [ reflexivity | ].
  destruct (startup_failure_starts_nothing sample_flags failing_storage_world
              default_log _ _ _ eq_refl) as (_ & _ & Hs & Hpid).
  split; [ exact Hs | ].
  apply Hpid; [ | reflexivity ].
  cbn. tauto.
Defined.

End StartupFacts.

(* ================================================================== *)
(** * Properties of the guarded close *)
(* ================================================================== *)

Module ClosersFacts.
Import Go GoFacts Closers.

Lemma nth_error_update_same (l : list Position) :
  forall i p q, nth_error l i = Some q -> nth_error (update l i p) i = Some p.
Proof.
  induction l as [ | x l IH ]; intros i p q H.
  - destruct i; discriminate H.
  - destruct i as [ | i ]; [ reflexivity | ]. cbn in *. eapply IH. exact H.
Qed.

Lemma nth_error_update_other (l : list Position) :
  forall i j p, i <> j -> nth_error (update l i p) j = nth_error l j.
Proof.
  induction l as [ | x l IH ]; intros i j p Hij.
  - reflexivity.
  - destruct i as [ | i ], j as [ | j ]; cbn; try reflexivity.
    + contradiction.
    + apply IH. congruence.
Qed.

Lemma update_update (l : list Position) :
  forall i p q, update (update l i p) i q = update l i q.
Proof.
  induction l as [ | x l IH ]; intros [ | i ] p q; cbn; try reflexivity.
  now rewrite IH.
Qed.

Lemma advance_select (ps : list Position) (i : nat) (c : bool) :
  nth_error ps i = Some AtSelect ->
  advance i {| channel := {| closed := c |}; positions := ps |}
  = Some (Returned {| channel := {| closed := c |};
                      positions := update ps i (if c then Through else AtClose) |}).
Proof.
  intros H. unfold advance. cbn [positions channel]. rewrite H.
  destruct c; reflexivity.
Qed.

Lemma advance_close (ps : list Position) (i : nat) (c : bool) :
  nth_error ps i = Some AtClose ->
  advance i {| channel := {| closed := c |}; positions := ps |}
  = Some (if c then Panicked "close of closed channel"
          else Returned {| channel := {| closed := true |};
                           positions := update ps i Through |}).
Proof.
  intros H. unfold advance. cbn [positions channel]. rewrite H.
  destruct c; reflexivity.
Qed.

(** X9: the guard of [emergencyShutdown] is a check followed by a
    [close].  A listener that runs both with no other closer in between
    never panics: it closes an open channel and leaves a closed one alone,
    exactly as [Pop3.emergencyShutdown] says.  But when another listener,
    or the signal loop of [main], closes the channel between the check and
    the [close], the [close] panics. *)
Theorem guarded_close_is_two_steps :
  forall (s : Shared) (i j : nat) (server : Pop3.Server),
    nth_error (positions s) i = Some AtSelect ->
    nth_error (positions s) j = Some AtSelect ->
    i <> j ->
    Pop3.globalShutdown server = channel s ->
    (closed (channel s) = true ->
       advance i s = Some (Returned (set_position i Through s))
       /\ Pop3.emergencyShutdown server = Returned server)
    /\ (closed (channel s) = false ->
       interleave [OfListener i; OfListener i] s
       = Some (Returned {| channel := {| closed := true |};
                           positions := update (positions s) i Through |})
       /\ Pop3.emergencyShutdown server
          = Returned (Pop3.set_globalShutdown {| closed := true |} server)
       /\ interleave [OfListener i; OfListener i; OfListener j] s
          = Some (Returned
                    {| channel := {| closed := true |};
                       positions := update (update (positions s) i Through)
                                           j Through |})
       /\ interleave [OfListener i; OfListener j; OfListener i; OfListener j] s
          = Some (Panicked "close of closed channel")
       /\ interleave [OfListener i; OfMain; OfListener i] s
          = Some (Panicked "close of closed channel")).
Proof.
  intros [[c] ps] i j server. cbn [channel positions closed].
  intros Hi Hj Hij Hch.
  assert (Hii : forall p, nth_error (update ps i p) i = Some p).
  { intros p. eapply nth_error_update_same. exact Hi. }
  assert (Hji : forall p, nth_error (update ps i p) j = Some AtSelect).
  { intros p. rewrite nth_error_update_other by exact Hij. exact Hj. }
  assert (Hjj : forall l p, nth_error l j = Some AtSelect ->
                            nth_error (update l j p) j = Some p).
  { intros l p H. eapply nth_error_update_same. exact H. }
  assert (Hiji : forall p q, nth_error (update (update ps i p) j q) i = Some p).
  { intros p q. rewrite nth_error_update_other by congruence. apply Hii. }
  split.
  - intros ->. split.
    + now rewrite (advance_select ps i true Hi).
    + apply Pop3Facts.emergencyShutdown_closed. now rewrite Hch.
  - intros ->.
    split; [ | split; [ | split; [ | split ] ] ].
    + cbn [interleave]. rewrite (advance_select ps i false Hi).
      rewrite (advance_close _ i false (Hii AtClose)).
      now rewrite update_update.
    + apply Pop3Facts.emergencyShutdown_returns.
    + cbn [interleave]. rewrite (advance_select ps i false Hi).
      rewrite (advance_close _ i false (Hii AtClose)).
      rewrite update_update.
      now rewrite (advance_select _ j true (Hji Through)).
    + cbn [interleave]. rewrite (advance_select ps i false Hi).
      rewrite (advance_select _ j false (Hji AtClose)).
      rewrite (advance_close _ i false (Hiji AtClose AtClose)).
      rewrite advance_close; [ reflexivity | ].
      rewrite nth_error_update_other by exact Hij.
      apply Hjj. apply Hji.
    + cbn [interleave]. rewrite (advance_select ps i false Hi).
      cbn [main_close close channel closed bind positions].
      now rewrite (advance_close _ i true (Hii AtClose)).
Qed.

Lemma guarded_close_is_two_steps_witness :
  interleave [OfListener 0; OfListener 1; OfListener 0; OfListener 1]%nat
             two_listeners
  = Some (Panicked "close of closed channel")
  /\ interleave [OfListener 0; OfListener 0; OfListener 1]%nat two_listeners
     = Some (Returned {| channel := {| closed := true |};
                         positions := [Through; Through] |}).
Proof.
  destruct (guarded_close_is_two_steps two_listeners 0 1
              (Pop3.New make_chan false) eq_refl eq_refl
              ltac:(discriminate) eq_refl) as [_ H].
  destruct (H eq_refl) as (_ & _ & Hserial & Hrace & _).
  split; [ exact Hrace | exact Hserial ].
Defined.

End ClosersFacts.

(* ================================================================== *)
(** * From a cause of shutdown to the end of [main] *)
(* ================================================================== *)

Module ShutdownFacts.
Import Go GoFacts Main MainFacts Schedules SchedulesFacts.

Section Shutdown.

Context {IServer : Type}.

Local Abbreviation State := (Main.State IServer).
Local Abbreviation ServerTuple := (Main.ServerTuple IServer).
Local Abbreviation Effect := (Main.Effect IServer).








End Shutdown.




End ShutdownFacts.
